(** * huff-deployer: a shallow embedding of [src/helpers.ts] and
    [src/HuffDeployer.ts], and the properties of its deploy pipeline.

    The plugin is glue code: it builds shell commands for the [huffc]
    compiler, scans [contracts/**/*.huff], scrapes an interface file for
    function signatures and hands the result to ethers.  The embedding has
    three layers:

    - [JsString]: the ECMAScript string methods the source calls
      ([indexOf], [lastIndexOf], [slice], [includes], [replace], [split]),
      with their index conventions (-1 for "absent", negative slice
      bounds counted from the end);
    - [Runtime] and the monad [M]: the external collaborators (child
      processes, glob, ethers) as an interface of oracles, the file system as
      a finite map, and promises with their three ways of ending;
    - [helpers] and [HuffDeployer]: the functions of the two source files. *)

From Stdlib Require Import ZArith Lia List Ascii String Bool DecimalString.
From stdpp Require Import gmap strings.
Import ListNotations.

Local Open Scope string_scope.
Local Open Scope Z_scope.

(* ===================================================================== *)
(** * ECMAScript string methods *)
(* ===================================================================== *)

Module JsString.

(** Strings are sequences of code units; [String.length] is [.length]. *)
Abbreviation len s := (Z.of_nat (String.length s)).

(** The string without its first [n] code units. *)
Fixpoint drop (n : nat) (s : string) : string :=
  match n, s with
  | O, _ => s
  | S _, EmptyString => EmptyString
  | S n', String _ s' => drop n' s'
  end.

(** Position of the first occurrence of [pat] in [s], scanning from the
    left, as [String.prototype.indexOf] does. *)
Fixpoint find_first (pat s : string) : option nat :=
  if String.prefix pat s then Some O
  else match s with
       | EmptyString => None
       | String _ s' => option_map S (find_first pat s')
       end.

(** Position of the last occurrence, as [String.prototype.lastIndexOf]. *)
Fixpoint find_last (pat s : string) : option nat :=
  match s with
  | EmptyString => if String.prefix pat s then Some O else None
  | String _ s' =>
      match find_last pat s' with
      | Some n => Some (S n)
      | None => if String.prefix pat s then Some O else None
      end
  end.

(** [s.indexOf(pat)]: -1 when [pat] does not occur. *)
Definition indexOf (s pat : string) : Z :=
  match find_first pat s with
  | Some n => Z.of_nat n
  | None => -1
  end.

(** [s.lastIndexOf(pat)]. *)
Definition lastIndexOf (s pat : string) : Z :=
  match find_last pat s with
  | Some n => Z.of_nat n
  | None => -1
  end.

(** [s.includes(pat)]. *)
Definition includes (s pat : string) : bool :=
  match find_first pat s with
  | Some _ => true
  | None => false
  end.

(** A relative index of [slice]: negative values count from the end, and
    the result is clamped to [0 .. length]. *)
Definition relative_index (length i : Z) : Z :=
  if i <? 0 then Z.max (length + i) 0 else Z.min i length.

(** [s.slice(start, end)]; [end_ = None] is the one-argument call
    [s.slice(start)].  An empty string results when the bounds cross. *)
Definition slice (s : string) (start : Z) (end_ : option Z) : string :=
  let from := relative_index (len s) start in
  let to := match end_ with
            | Some e => relative_index (len s) e
            | None => len s
            end in
  String.substring (Z.to_nat from) (Z.to_nat (Z.max (to - from) 0)) s.

(** [s.replace(pat, rep)] for a string pattern and a replacement without
    [$] patterns: the first occurrence only. *)
Fixpoint replace (pat rep s : string) : string :=
  if String.prefix pat s then rep ++ drop (String.length pat) s
  else match s with
       | EmptyString => EmptyString
       | String c s' => String c (replace pat rep s')
       end.

(** [s.split(sep)] for a one-character separator. *)
Fixpoint split (sep : ascii) (s : string) : list string :=
  match s with
  | EmptyString => [EmptyString]
  | String c s' =>
      if Ascii.eqb c sep then EmptyString :: split sep s'
      else match split sep s' with
           | piece :: rest => String c piece :: rest
           | [] => [String c EmptyString]
           end
  end.

(** No code unit of [s] is [c].  For the slash this is the regular
    expression class "anything but a slash", repeated up to the end of the
    input. *)
Fixpoint free_of (c : ascii) (s : string) : bool :=
  match s with
  | EmptyString => true
  | String d s' => negb (Ascii.eqb d c) && free_of c s'
  end.

(** The regular-expression replace of [getContractAbi]: the pattern is a
    slash, a captured group of non-slash characters and the end of the
    input, and the replacement a slash, the letter I and the group.  The
    leftmost position where a slash is followed by slash-free text up to the
    end of the input gets an [I] after the slash; without such a position
    [s] is returned. *)
Fixpoint replace_last_segment (s : string) : string :=
  match s with
  | EmptyString => EmptyString
  | String c s' =>
      if Ascii.eqb c "/" && free_of "/" s' then "/I" ++ s'
      else String c (replace_last_segment s')
  end.

(** ** Occurrences, stated without the scanning functions *)

(** [pat] occurs in [s] at position [n]. *)
Definition occurs_at (pat s : string) (n : nat) : Prop :=
  exists a b, s = a ++ pat ++ b /\ String.length a = n.

(** [n] is the position of the first occurrence of [pat] in [s]. *)
Definition first_occurrence (pat s : string) (n : nat) : Prop :=
  occurs_at pat s n /\ forall m, occurs_at pat s m -> (n <= m)%nat.

(** [n] is the position of the last occurrence of [pat] in [s]. *)
Definition last_occurrence (pat s : string) (n : nat) : Prop :=
  occurs_at pat s n /\ forall m, occurs_at pat s m -> (m <= n)%nat.

End JsString.

Import JsString.

(* ===================================================================== *)
(** * The environment of a deploy call *)
(* ===================================================================== *)

(** Values that are thrown or that reject a promise.  A value raised by an
    external collaborator (a child process, the file system, ethers) is
    kept as the text a template literal renders it to. *)
Inductive exn : Type :=
| HardhatPluginError (pluginName message : string)
| Error (message : string)
| Foreign (text : string).

(** How an awaited promise ends.  [Uncaught] is an exception thrown inside
    the callback of [child_process.exec]: the callback runs outside the
    promise executor, so the promise is neither resolved nor rejected, the
    [await] never resumes, and the exception surfaces on the event loop. *)
Inductive outcome (A : Type) : Type :=
| Fulfilled (a : A)
| Rejected (e : exn)
| Uncaught (e : exn).

Arguments Fulfilled {A} a.
Arguments Rejected {A} e.
Arguments Uncaught {A} e.

(** What a call does to the outside, in the order it does it. *)
Inductive Event : Type :=
| EvExec (command : string)
| EvGlob (pattern : string)
| EvReadFile (path : string)
| EvUnlink (path : string)
| EvConsoleError (message : string)
| EvGetSigners
| EvGetContractFactory (abi : list string) (bytecode : string)
| EvFactoryDeploy.

(** The collaborators the plugin does not implement: the ECMAScript
    conversions that depend on the run-time value, the shell behind
    [child_process.exec] (which may read and write files), [glob.sync], and
    the ethers objects reached through [hre].  An error is given by its
    text. *)
Class Runtime : Type := {
  Contract : Type;
  Signer : Type;
  ContractFactory : Type;
  Chain : Type;
  any : Type;
  number : Type;
  toLowerCase : string -> string;
  join_text : any -> string;
  number_text : number -> string;
  child_process_exec :
    string -> gmap string string -> (string + string) * gmap string string;
  glob_sync : string -> gmap string string -> list string;
  getSigners : Chain -> string + list Signer;
  getContractFactory :
    list string -> string -> option Signer -> Chain ->
    (string + ContractFactory) * Chain;
  factory_deploy : ContractFactory -> Chain -> (string + Contract) * Chain
}.

(** The state a call runs in: files by path, the chain behind ethers, and
    the events so far. *)
Record World `{Runtime} : Type := mkWorld {
  fs : gmap string string;
  chain : Chain;
  log : list Event
}.

(** An asynchronous computation: a state transformer that ends in an
    [outcome]. *)
Definition M `{Runtime} (A : Type) : Type := World -> outcome A * World.

Definition ret `{Runtime} {A : Type} (a : A) : M A :=
  fun w => (Fulfilled a, w).

Definition bind `{Runtime} {A B : Type} (m : M A) (k : A -> M B) : M B :=
  fun w =>
    match m w with
    | (Fulfilled a, w') => k a w'
    | (Rejected e, w') => (Rejected e, w')
    | (Uncaught e, w') => (Uncaught e, w')
    end.

Definition throw `{Runtime} {A : Type} (e : exn) : M A :=
  fun w => (Rejected e, w).

Definition throw_in_callback `{Runtime} {A : Type} (e : exn) : M A :=
  fun w => (Uncaught e, w).

Notation "'await' x <- c1 ; c2" := (bind c1 (fun x => c2))
  (at level 10, x name, c1 at level 100, c2 at level 200).
Notation "'perform' c1 ; c2" := (bind c1 (fun _ => c2))
  (at level 10, c1 at level 100, c2 at level 200).

Definition emit `{Runtime} (e : Event) (w : World) : World :=
  mkWorld _ (fs w) (chain w) (log w ++ [e]).

(** [try { m } catch (e) { throw h(e) }]: only a rejection is caught. *)
Definition try_rethrow `{Runtime} {A : Type} (m : M A) (h : exn -> exn) : M A :=
  fun w =>
    match m w with
    | (Rejected e, w') => (Rejected (h e), w')
    | r => r
    end.

(** The text of the error Node raises for a missing path. *)
Definition enoent (syscall path : string) : string :=
  "Error: ENOENT: no such file or directory, " ++ syscall ++ " '" ++ path ++ "'".

(** [exec(command, callback)]: runs the shell and later calls back with
    [err] (left) or, when [err] is null, the standard output (right). *)
Definition exec `{Runtime} (command : string) : M (string + string) :=
  fun w =>
    let '(r, fs') := child_process_exec command (fs w) in
    (Fulfilled r, mkWorld _ fs' (chain w) (log w ++ [EvExec command])).

Definition readFileSync `{Runtime} (path : string) : M string :=
  fun w =>
    match fs w !! path with
    | Some text => (Fulfilled text, emit (EvReadFile path) w)
    | None => (Rejected (Foreign (enoent "open" path)), emit (EvReadFile path) w)
    end.

Definition unlinkSync `{Runtime} (path : string) : M unit :=
  fun w =>
    match fs w !! path with
    | Some _ =>
        (Fulfilled tt,
         mkWorld _ (delete path (fs w)) (chain w) (log w ++ [EvUnlink path]))
    | None => (Rejected (Foreign (enoent "unlink" path)), emit (EvUnlink path) w)
    end.

Definition console_error `{Runtime} (message : string) : M unit :=
  fun w => (Fulfilled tt, emit (EvConsoleError message) w).

Definition hre_getSigners `{Runtime} : M (list Signer) :=
  fun w =>
    match getSigners (chain w) with
    | inl text => (Rejected (Foreign text), emit EvGetSigners w)
    | inr signers => (Fulfilled signers, emit EvGetSigners w)
    end.

Definition hre_getContractFactory `{Runtime}
    (abi : list string) (bytecode : string) (signer : option Signer)
    : M ContractFactory :=
  fun w =>
    let '(r, chain') := getContractFactory abi bytecode signer (chain w) in
    let w' := mkWorld _ (fs w) chain' (log w ++ [EvGetContractFactory abi bytecode]) in
    match r with
    | inl text => (Rejected (Foreign text), w')
    | inr factory => (Fulfilled factory, w')
    end.

Definition deploy_factory `{Runtime} (factory : ContractFactory) : M Contract :=
  fun w =>
    let '(r, chain') := factory_deploy factory (chain w) in
    let w' := mkWorld _ (fs w) chain' (log w ++ [EvFactoryDeploy]) in
    match r with
    | inl text => (Rejected (Foreign text), w')
    | inr contract => (Fulfilled contract, w')
    end.

(** Template-literal rendering of a caught value. *)
Definition exn_text (e : exn) : string :=
  match e with
  | HardhatPluginError _ message => "HardhatPluginError: " ++ message
  | Error message => "Error: " ++ message
  | Foreign text => text
  end.

(** The line feed that [split] separates on. *)
Definition LF : ascii := "010"%char.

(* ===================================================================== *)
(** * src/helpers.ts *)
(* ===================================================================== *)

Module helpers.
Section WithRuntime.
Context `{Runtime}.

Definition huffUrl : string := "https://github.com/huff-language/huff-rs".

(** [verifyHuffCompiler]: both failures are thrown inside the [exec]
    callback; [reject] is never called. *)
Definition verifyHuffCompiler : M unit :=
  await r <- exec "huffc --version";
  match r with
  | inl _ =>
      throw_in_callback
        (HardhatPluginError "huff-deployer"
           ("Huff compiler not found. Please install it from " ++ huffUrl))
  | inr stdout =>
      if includes stdout "0.0." then
        throw_in_callback
          (HardhatPluginError "huff-deployer"
             ("TS Huff not supported. Please install the Rust compiler from "
                ++ huffUrl))
      else ret tt
  end.

(** [Array.prototype.join]: the result [R] grows element by element, with
    the separator before every element but the first ([k] is the index). *)
Fixpoint join_from (sep R : string) (k : nat) (elements : list any) : string :=
  match elements with
  | [] => R
  | element :: rest =>
      let R := if Nat.eqb k 0 then R else R ++ sep in
      join_from sep (R ++ join_text element) (S k) rest
  end.

Definition join (sep : string) (elements : list any) : string :=
  join_from sep "" 0 elements.

(** The command line of [getContractBytecode]. *)
Definition bytecode_command
    (filePath : string) (constructorArgs : option (list any)) : string :=
  match constructorArgs with
  | None => "huffc " ++ filePath ++ " --bytecode"
  | Some constructorArgs =>
      let args := join " " constructorArgs in
      "huffc " ++ filePath ++ " -i " ++ args ++ " --bytecode"
  end.

Definition getContractBytecode
    (filePath : string) (constructorArgs : option (list any)) : M string :=
  await r <- exec (bytecode_command filePath constructorArgs);
  match r with
  | inl err => throw (Foreign err)
  | inr stdout => ret stdout
  end.

Definition returnHuffFiles : M (list string) :=
  fun w =>
    (Fulfilled (glob_sync "contracts/**/*.huff" (fs w)),
     emit (EvGlob "contracts/**/*.huff") w).

Definition interface_command (filePath : string) : string :=
  "huffc " ++ filePath ++ " --interface".

Definition generateContractInterface (filePath : string) : M unit :=
  await r <- exec (interface_command filePath);
  match r with
  | inl err => throw (Foreign err)
  | inr _ => ret tt
  end.

Definition generateArtifacts (contractFile : string) : M unit :=
  await r <- exec ("huffc " ++ contractFile ++ " --output-directory --huff-artifacts");
  match r with
  | inl err => throw (Foreign err)
  | inr _ => ret tt
  end.

(** The path [getContractAbi] reads. *)
Definition interfaceFilePath (filePath : string) : string :=
  replace_last_segment (replace ".huff" ".sol" filePath).

(** What [getContractAbi] pushes for a line. *)
Definition pushed (line : string) : string :=
  slice line (indexOf line "function") (Some (indexOf line ";")).

(** The loop of [getContractAbi] over the lines of the interface text. *)
Definition scrape (contractInterface : string) : list string :=
  fold_left
    (fun (abi : list string) (line : string) =>
       if includes line "function" then (abi ++ [pushed line])%list else abi)
    (split LF contractInterface) [].

Definition getContractAbi (filePath : string) : M (list string) :=
  await contractInterface <- readFileSync (interfaceFilePath filePath);
  ret (scrape contractInterface).

(** The name [deploy] compares with [targetContract]. *)
Definition contractName (filePath : string) : string :=
  slice filePath (lastIndexOf filePath "/" + 1) (Some (indexOf filePath ".huff")).

Definition matches (targetContract filePath : string) : bool :=
  String.eqb (toLowerCase targetContract) (toLowerCase (contractName filePath)).

(** The body of the [if] inside the loop of [deploy], for one file. *)
Definition deploy_file
    (targetContract : string) (signer : option Signer)
    (constructorArgs : option (list any)) (filePath : string) : M Contract :=
  await bytecode <- getContractBytecode filePath constructorArgs;
  perform generateContractInterface filePath;
  await abi <- getContractAbi filePath;
  await factory <- hre_getContractFactory abi bytecode signer;
  try_rethrow (deploy_factory factory)
    (fun e => Error ("Error deploying " ++ targetContract ++ ": " ++ exn_text e)).

(** [for (const filePath of huffFiles)], with the variable [contract]
    ([None] while it is undefined). *)
Fixpoint deploy_loop
    (targetContract : string) (signer : option Signer)
    (constructorArgs : option (list any))
    (huffFiles : list string) (contract : option Contract)
    : M (option Contract) :=
  match huffFiles with
  | [] => ret contract
  | filePath :: rest =>
      if matches targetContract filePath then
        await c <- deploy_file targetContract signer constructorArgs filePath;
        deploy_loop targetContract signer constructorArgs rest (Some c)
      else deploy_loop targetContract signer constructorArgs rest contract
  end.

Definition deploy
    (targetContract : string) (signer : option Signer)
    (constructorArgs : option (list any)) : M Contract :=
  perform verifyHuffCompiler;
  await huffFiles <- returnHuffFiles;
  await contract <- deploy_loop targetContract signer constructorArgs huffFiles None;
  match contract with
  | None =>
      throw (HardhatPluginError "HuffDeployer"
               ("Contract " ++ targetContract ++ " not found."))
  | Some contract => ret contract
  end.

End WithRuntime.
End helpers.

(* ===================================================================== *)
(** * src/HuffDeployer.ts *)
(* ===================================================================== *)

Module HuffDeployer.

(** [interface CompilerArg]. *)
Record CompilerArg `{Runtime} : Type := mkCompilerArg {
  key : number;
  value : number;
  full : bool
}.

Section WithRuntime.
Context `{Runtime}.

(** The method [HuffDeployer.deploy] of the class: it takes the first
    Hardhat signer when none is given and calls [deploy] of helpers.ts. *)
Definition method_deploy
    (targetContract : string) (constructorArgs : option (list any))
    (signer : option Signer) : M Contract :=
  await signer <-
    match signer with
    | None => await signers <- hre_getSigners; ret (head signers)
    | Some s => ret (Some s)
    end;
  helpers.deploy targetContract signer constructorArgs.

(** The functions below the class.  [verifyHuffCompiler],
    [returnHuffFiles], [generateContractInterface] and [getContractAbi] have
    the same text as in helpers.ts. *)
Definition verifyHuffCompiler : M unit := helpers.verifyHuffCompiler.
Definition returnHuffFiles : M (list string) := helpers.returnHuffFiles.
Definition generateContractInterface : string -> M unit :=
  helpers.generateContractInterface.
Definition interfaceFilePath : string -> string := helpers.interfaceFilePath.
Definition getContractAbi : string -> M (list string) := helpers.getContractAbi.

(** One turn of the loop over [compilerArgs]. *)
Definition append_flag (argString : string) (arg : CompilerArg) : string :=
  let key := if full arg then "--" ++ number_text (key arg)
             else "-" ++ number_text (key arg) in
  argString ++ " " ++ key ++ " " ++ number_text (value arg).

Definition argString (compilerArgs : option (list CompilerArg)) : string :=
  match compilerArgs with
  | None => ""
  | Some compilerArgs => fold_left append_flag compilerArgs " "
  end.

Definition bytecode_command
    (filePath : string) (constructorArgs : option (list any))
    (compilerArgs : option (list CompilerArg)) : string :=
  match constructorArgs with
  | None => "huffc " ++ filePath ++ " --bytecode" ++ argString compilerArgs
  | Some constructorArgs =>
      let args := helpers.join " " constructorArgs in
      "huffc " ++ filePath ++ " -i " ++ args ++ " --bytecode"
        ++ argString compilerArgs
  end.

Definition getContractBytecode
    (filePath : string) (constructorArgs : option (list any))
    (compilerArgs : option (list CompilerArg)) : M string :=
  await r <- exec (bytecode_command filePath constructorArgs compilerArgs);
  match r with
  | inl err => throw (Foreign err)
  | inr stdout => ret stdout
  end.

(** The path [clean] unlinks. *)
Definition clean_path (filePath : string) : string :=
  let filePath := replace "huff" "sol" filePath in
  let lastSlashIndex := lastIndexOf filePath "/" in
  slice filePath 0 (Some (lastSlashIndex + 1)) ++ "I"
    ++ slice filePath (lastSlashIndex + 1) None.

(** [clean]: a failing unlink is reported on the console and swallowed. *)
Definition clean (filePath : string) : M unit :=
  fun w =>
    let filePath := clean_path filePath in
    match unlinkSync filePath w with
    | (Rejected err, w') =>
        console_error ("Error deleting " ++ filePath ++ ": " ++ exn_text err) w'
    | r => r
    end.

Definition contractName : string -> string := helpers.contractName.
Definition matches : string -> string -> bool := helpers.matches.

Definition deploy_file
    (targetContract : string) (signer : option Signer)
    (generateInterface : bool) (constructorArgs : option (list any))
    (compilerArgs : option (list CompilerArg)) (filePath : string)
    : M Contract :=
  await bytecode <- getContractBytecode filePath constructorArgs compilerArgs;
  perform generateContractInterface filePath;
  await abi <- getContractAbi filePath;
  await factory <- hre_getContractFactory abi bytecode signer;
  await contract <-
    try_rethrow (deploy_factory factory)
      (fun e => Error ("Error deploying " ++ targetContract ++ ": " ++ exn_text e));
  perform (if negb generateInterface then clean filePath else ret tt);
  ret contract.

Fixpoint deploy_loop
    (targetContract : string) (signer : option Signer)
    (generateInterface : bool) (constructorArgs : option (list any))
    (compilerArgs : option (list CompilerArg))
    (huffFiles : list string) (contract : option Contract)
    : M (option Contract) :=
  match huffFiles with
  | [] => ret contract
  | filePath :: rest =>
      if matches targetContract filePath then
        await c <- deploy_file targetContract signer generateInterface
                     constructorArgs compilerArgs filePath;
        deploy_loop targetContract signer generateInterface constructorArgs
          compilerArgs rest (Some c)
      else
        deploy_loop targetContract signer generateInterface constructorArgs
          compilerArgs rest contract
  end.

Definition deploy
    (targetContract : string) (signer : option Signer)
    (generateInterface : bool) (constructorArgs : option (list any))
    (compilerArgs : option (list CompilerArg)) : M Contract :=
  perform verifyHuffCompiler;
  await huffFiles <- returnHuffFiles;
  await contract <-
    deploy_loop targetContract signer generateInterface constructorArgs
      compilerArgs huffFiles None;
  match contract with
  | None =>
      throw (HardhatPluginError "HuffDeployer"
               ("Contract " ++ targetContract ++ " not found."))
  | Some contract => ret contract
  end.

End WithRuntime.
End HuffDeployer.

(* ===================================================================== *)
(** * The vocabulary of the specification *)
(* ===================================================================== *)

(** The specification speaks of basenames, extensions and spans of a line.
    These definitions follow its words, not the code; the theorems below
    compare them with what the code computes. *)
Module Spec.

(** The final path component: the text after the last slash. *)
Fixpoint basename (path : string) : string :=
  match path with
  | EmptyString => EmptyString
  | String _ rest => if free_of "/" path then path else basename rest
  end.

(** [s] without the extension [ext], when [s] ends with it. *)
Fixpoint strip_extension (ext s : string) : string :=
  if String.eqb s ext then EmptyString
  else match s with
       | EmptyString => EmptyString
       | String c s' => String c (strip_extension ext s')
       end.

(** "The basename, stripped of the .huff extension". *)
Definition stem (path : string) : string :=
  strip_extension ".huff" (basename path).

(** "Equal case-insensitively". *)
Definition same_name `{Runtime} (a b : string) : Prop :=
  toLowerCase a = toLowerCase b.

(** The path contains [.huff] only as its trailing extension: it ends
    with it, and that is the first occurrence. *)
Definition extension_only_trailing (path : string) : Prop :=
  exists stem,
    path = stem ++ ".huff" /\ first_occurrence ".huff" path (String.length stem).

(** The substring [huff] first occurs in the trailing extension. *)
Definition huff_only_trailing (path : string) : Prop :=
  exists stem,
    path = stem ++ ".huff" /\ first_occurrence "huff" path (S (String.length stem)).

(** A path the scan of [returnHuffFiles] can return: it matches the
    pattern [contracts/**/*.huff], so it starts with the contracts directory
    and ends with the extension. *)
Definition scanned_path (path : string) : Prop :=
  exists rest, path = "contracts/" ++ rest ++ ".huff".

(** The path is the source path [dir/name.huff]. *)
Definition source_path (dir name path : string) : Prop :=
  path = dir ++ "/" ++ name ++ ".huff" /\ free_of "/" name = true.

(** "Same directory, filename prefixed with I, extension replaced". *)
Definition interface_path (dir name : string) : string :=
  dir ++ "/" ++ "I" ++ name ++ ".sol".

(** The line has a statement terminator after the first occurrence of the
    keyword. *)
Definition terminated_after_keyword (line : string) : Prop :=
  exists i k,
    first_occurrence "function" line i /\ occurs_at ";" line k /\ (i < k)%nat.

(** The first terminator of the line comes after the first occurrence of
    the keyword: no terminator stands before the keyword. *)
Definition first_terminator_after_keyword (line : string) : Prop :=
  exists i j,
    first_occurrence "function" line i /\ first_occurrence ";" line j /\
    (i < j)%nat.

(** [fragment] is the span of [line] from the first occurrence of the
    keyword up to, and without, the first terminator that follows: the line
    is what precedes the keyword, the fragment, that terminator and the
    rest, and the fragment itself has no terminator. *)
Definition fragment_of (line fragment : string) : Prop :=
  exists pre post,
    line = pre ++ fragment ++ ";" ++ post /\
    first_occurrence "function" line (String.length pre) /\
    String.prefix "function" fragment = true /\
    free_of ";" fragment = true.

(** The lines of a text that contain the keyword, in order. *)
Definition function_lines (text : string) : list string :=
  List.filter (fun line => includes line "function") (split LF text).

(** The computation [m] is one run of [command]: the child process is
    started on the files as they are, its standard output is the result or
    its error the rejection, and the run is the one event. *)
Definition runs_command `{Runtime} (m : M string) (command : string) : Prop :=
  forall w,
    m w
    = (match fst (child_process_exec command (fs w)) with
       | inl err => Rejected (Foreign err)
       | inr stdout => Fulfilled stdout
       end,
       mkWorld _ (snd (child_process_exec command (fs w))) (chain w)
         (log w ++ [EvExec command])).

(** The words of a command line: the pieces between single spaces. *)
Definition words (command : string) : list string := split " " command.

(** "The arguments joined by single spaces in their original order". *)
Definition space_joined `{Runtime} (constructorArgs : list any) : string :=
  String.concat " " (map join_text constructorArgs).

(** An argument that is one word of the command line. *)
Definition single_word `{Runtime} (argument : any) : Prop :=
  free_of " " (join_text argument) = true.

(** A compiler flag: two dashes before the key when it is marked full, one
    otherwise, then a space and the value. *)
Definition rendered_flag `{Runtime} (arg : HuffDeployer.CompilerArg) : string :=
  (if HuffDeployer.full arg then "--" else "-")
    ++ number_text (HuffDeployer.key arg) ++ " "
    ++ number_text (HuffDeployer.value arg).

(** The flags in sequence order, each after a space. *)
Definition rendered_flags `{Runtime} (args : list HuffDeployer.CompilerArg)
    : string :=
  fold_right (fun arg rest => " " ++ rendered_flag arg ++ rest) "" args.

(** What the flags add to the command: nothing when no sequence of flags
    is passed, else a space and then the flags. *)
Definition compiler_flags `{Runtime}
    (compilerArgs : option (list HuffDeployer.CompilerArg)) : string :=
  match compilerArgs with
  | None => ""
  | Some compilerArgs => " " ++ rendered_flags compilerArgs
  end.

(** The events of a full run of the per-file sequence that succeeded:
    compile, generate the interface, read it, build the factory, deploy. *)
Definition file_sequence
    (bytecode_command interface_command interfacePath : string)
    (abi : list string) (bytecode : string) : list Event :=
  [EvExec bytecode_command; EvExec interface_command; EvReadFile interfacePath;
   EvGetContractFactory abi bytecode; EvFactoryDeploy].

(** The scanned files whose stem is the requested name up to case, in
    discovery order. *)
Definition matching `{Runtime}
    (targetContract : string) (huffFiles : list string) : list string :=
  List.filter
    (fun filePath =>
       String.eqb (toLowerCase targetContract) (toLowerCase (stem filePath)))
    huffFiles.

(** [events] is one full run of the per-file sequence on [filePath]. *)
Definition sequence_of `{Runtime}
    (constructorArgs : option (list any)) (filePath : string)
    (events : list Event) : Prop :=
  exists abi bytecode,
    events = file_sequence (helpers.bytecode_command filePath constructorArgs)
               (helpers.interface_command filePath)
               (helpers.interfaceFilePath filePath) abi bytecode.

(** The world in which the loop of [deploy] starts: the version check left
    the files [files'], and the check and the scan are in the log. *)
Definition after_scan `{Runtime} (w : World) (files' : gmap string string) : World :=
  mkWorld _ files' (chain w)
    (log w ++ [EvExec "huffc --version"; EvGlob "contracts/**/*.huff"]).

(** The per-file sequence on each of [files] in order, keeping the
    contract of the last one: "once per matching file". *)
Fixpoint each_in_order `{Runtime}
    (targetContract : string) (signer : option Signer)
    (constructorArgs : option (list any))
    (files : list string) (contract : option Contract)
    : M (option Contract) :=
  match files with
  | [] => ret contract
  | filePath :: rest =>
      await c <- helpers.deploy_file targetContract signer constructorArgs filePath;
      each_in_order targetContract signer constructorArgs rest (Some c)
  end.

(** The files after the child processes among [events] ran in order, when
    nothing else writes or deletes. *)
Definition files_after `{Runtime}
    (events : list Event) (files : gmap string string) : gmap string string :=
  fold_left
    (fun files event =>
       match event with
       | EvExec command => snd (child_process_exec command files)
       | _ => files
       end)
    events files.

Definition is_unlink (event : Event) : bool :=
  match event with
  | EvUnlink _ => true
  | _ => false
  end.

(** A computation that deletes nothing: whatever it does, it only adds
    events, none of them an unlink, and the files change by child processes
    alone. *)
Definition deletes_nothing `{Runtime} {A : Type} (m : M A) : Prop :=
  forall w r w',
    m w = (r, w') ->
    exists events,
      log w' = (log w ++ events)%list /\
      forallb (fun event => negb (is_unlink event)) events = true /\
      fs w' = files_after events (fs w).

(** A computation that can only fail in the given ways: a rejection
    satisfies [rejections], an exception out of a callback [uncaught]. *)
Definition fails_only `{Runtime} {A : Type}
    (rejections uncaught : exn -> Prop) (m : M A) : Prop :=
  forall w,
    match fst (m w) with
    | Fulfilled _ => True
    | Rejected e => rejections e
    | Uncaught e => uncaught e
    end.




(** A computation all of whose events satisfy [allowed]. *)
Definition emits_only `{Runtime} {A : Type}
    (allowed : Event -> Prop) (m : M A) : Prop :=
  forall w, exists events,
    log (snd (m w)) = (log w ++ events)%list /\ Forall allowed events.

(** The events a call of [deploy] for [targetContract] can add: the
    compiler check, the scan, and steps of the sequence of a file that
    [deploy] matches with the request. *)
Definition deploy_event `{Runtime}
    (targetContract : string) (constructorArgs : option (list any))
    (event : Event) : Prop :=
  match event with
  | EvExec command =>
      command = "huffc --version" \/
      exists filePath,
        helpers.matches targetContract filePath = true /\
        (command = helpers.bytecode_command filePath constructorArgs \/
         command = helpers.interface_command filePath)
  | EvGlob pattern => pattern = "contracts/**/*.huff"
  | EvReadFile path =>
      exists filePath,
        helpers.matches targetContract filePath = true /\
        path = helpers.interfaceFilePath filePath
  | EvGetContractFactory _ _ => True
  | EvFactoryDeploy => True
  | EvGetSigners => False
  | EvUnlink _ => False
  | EvConsoleError _ => False
  end.

End Spec.

(* ===================================================================== *)
(** * A concrete runtime, to run the model *)
(* ===================================================================== *)

Module Demo.

Definition ascii_lower (c : ascii) : ascii :=
  let n := nat_of_ascii c in
  if (65 <=? n)%nat && (n <=? 90)%nat then ascii_of_nat (n + 32) else c.

(** [toLowerCase] on the ASCII range. *)
Fixpoint lower (s : string) : string :=
  match s with
  | EmptyString => EmptyString
  | String c s' => String (ascii_lower c) (lower s')
  end.

Definition interface_text : string :=
  "interface IToken {" ++ String LF
    ("  function balanceOf(address) external view returns (uint256);" ++ String LF
    ("  function mint(address, uint256) external;" ++ String LF "}")).

(** Where the stand-in compiler writes the interface of a source: in the
    directory of the source, under the stem with an I before it and the
    extension of the companion language. *)
Definition interface_of (source : string) : string :=
  slice source 0 (Some (len source - len (Spec.basename source)))
    ++ "I" ++ Spec.stem source ++ ".sol".

(** A stand-in for the shell.  [huffc --version] fails when the compiler
    is absent; an interface command writes the interface file next to its
    source; every other command prints a bytecode. *)
Definition shell (installed : bool) (command : string) (files : gmap string string)
    : (string + string) * gmap string string :=
  if negb installed then (inl "Error: Command failed: huffc: not found", files)
  else if String.eqb command "huffc --version" then (inr "huffc 0.3.2", files)
  else if String.eqb (slice command (-12) None) " --interface" then
    (inr "",
     <[interface_of (slice command 6 (Some (-12))) := interface_text]> files)
  else (inr "0x60008060093d393df3", files).

(** A runtime whose scan finds [found], with ethers handing out the
    deployment count as the contract handle. *)
Definition runtime (installed : bool) (found : list string) : Runtime := {|
  Contract := nat * string;
  Signer := string;
  ContractFactory := string;
  Chain := nat;
  any := string;
  number := Z;
  toLowerCase := lower;
  join_text := fun s => s;
  number_text := fun n => DecimalString.NilZero.string_of_int (Z.to_int n);
  child_process_exec := shell installed;
  glob_sync := fun _ _ => found;
  getSigners := fun _ => inr ["0xf39f"];
  getContractFactory := fun _ bytecode _ deployed => (inr bytecode, deployed);
  factory_deploy := fun bytecode deployed =>
    (inr (deployed, bytecode), S deployed)
|}.

Definition world (installed : bool) (found : list string)
    : @World (runtime installed found) :=
  @mkWorld (runtime installed found)
    (list_to_map (map (fun p => (p, "#define macro MAIN() = takes (0) returns (0) {}")) found))
    O [].

(** A runtime put together from a shell, the answers of ethers (an error
    text, or success) and the Hardhat signers. *)
Definition custom
    (sh : string -> gmap string string -> (string + string) * gmap string string)
    (factory_error deploy_error : option string)
    (signers : string + list string) (found : list string) : Runtime := {|
  Contract := nat * string;
  Signer := string;
  ContractFactory := string;
  Chain := nat;
  any := string;
  number := Z;
  toLowerCase := lower;
  join_text := fun s => s;
  number_text := fun n => DecimalString.NilZero.string_of_int (Z.to_int n);
  child_process_exec := sh;
  glob_sync := fun _ _ => found;
  getSigners := fun _ => signers;
  getContractFactory := fun _ bytecode _ deployed =>
    match factory_error with
    | Some text => (inl text, deployed)
    | None => (inr bytecode, deployed)
    end;
  factory_deploy := fun bytecode deployed =>
    match deploy_error with
    | Some text => (inl text, deployed)
    | None => (inr (deployed, bytecode), S deployed)
    end
|}.

Definition custom_world
    (sh : string -> gmap string string -> (string + string) * gmap string string)
    (factory_error deploy_error : option string)
    (signers : string + list string) (found : list string)
    (files : gmap string string)
    : @World (custom sh factory_error deploy_error signers found) :=
  @mkWorld (custom sh factory_error deploy_error signers found) files O [].

(** A shell whose compiler reports the given version text. *)
Definition shell_reporting (version : string) (command : string)
    (files : gmap string string) : (string + string) * gmap string string :=
  if String.eqb command "huffc --version" then (inr version, files)
  else shell true command files.

(** A shell on which one command fails. *)
Definition shell_failing (failing : string) (command : string)
    (files : gmap string string) : (string + string) * gmap string string :=
  if String.eqb command failing then
    (inl ("Error: Command failed: " ++ failing), files)
  else shell true command files.

(** A shell whose compiler succeeds but writes no file. *)
Definition shell_writing_nothing (command : string) (files : gmap string string)
    : (string + string) * gmap string string :=
  if String.eqb command "huffc --version" then (inr "huffc 0.3.2", files)
  else (inr "0x60008060093d393df3", files).

End Demo.

(* ===================================================================== *)
(** * Facts about the string methods *)
(* ===================================================================== *)

Module JsStringFacts.

Lemma append_nil_l (b : string) : "" ++ b = b.
Proof. reflexivity. Qed.

Lemma append_cons (c : ascii) (a b : string) :
  String c a ++ b = String c (a ++ b).
Proof. reflexivity. Qed.

Lemma append_empty_r (s : string) : s ++ "" = s.
Proof.
  induction s as [|c s IH]; [reflexivity | now rewrite append_cons, IH].
Qed.

Lemma append_assoc (a b c : string) : (a ++ b) ++ c = a ++ b ++ c.
Proof.
  induction a as [|x a IH]; [reflexivity | now rewrite !append_cons, IH].
Qed.

Lemma length_append (a b : string) :
  String.length (a ++ b) = (String.length a + String.length b)%nat.
Proof.
  induction a as [|x a IH]; [reflexivity | rewrite append_cons; cbn; now rewrite IH].
Qed.


(** ** The methods on small inputs *)

Example slice_between : slice "abcdef" 2 (Some 4) = "cd".
Proof. reflexivity. Qed.

Example slice_from_the_end : slice "abcdef" (-2) None = "ef".
Proof. reflexivity. Qed.

Example slice_negative_end : slice "abcdef" 1 (Some (-1)) = "bcde".
Proof. reflexivity. Qed.

Example slice_crossed_bounds : slice "abcdef" 4 (Some 2) = "".
Proof. reflexivity. Qed.

Example indexOf_first : indexOf "a.huff.huff" ".huff" = 1.
Proof. reflexivity. Qed.

Example indexOf_absent : indexOf "abc" ";" = -1.
Proof. reflexivity. Qed.

Example lastIndexOf_last : lastIndexOf "a/b/c" "/" = 3.
Proof. reflexivity. Qed.

Example replace_first_only :
  replace "huff" "sol" "contracts/huffs/A.huff" = "contracts/sols/A.huff".
Proof. reflexivity. Qed.

Example replace_last_segment_inserts :
  replace_last_segment "contracts/dir/Token.sol" = "contracts/dir/IToken.sol".
Proof. reflexivity. Qed.

Example replace_last_segment_no_slash : replace_last_segment "Token.sol" = "Token.sol".
Proof. reflexivity. Qed.

Example split_lines : split LF ("a" ++ String LF ("b" ++ String LF "")) = ["a"; "b"; ""].
Proof. reflexivity. Qed.

(** ** Prefixes and occurrences *)

Lemma prefix_append (p b : string) : String.prefix p (p ++ b) = true.
Proof.
  induction p as [|c p IH]; [now destruct b|].
  rewrite append_cons. cbn. destruct (ascii_dec c c); [exact IH | congruence].
Qed.

Lemma prefix_split (p s : string) :
  String.prefix p s = true -> exists b, s = p ++ b.
Proof.
  revert s. induction p as [|c p IH]; intros s Hp.
  - exists s. reflexivity.
  - destruct s as [|d s]; [discriminate|]. cbn in Hp.
    destruct (ascii_dec c d) as [->|]; [|discriminate].
    destruct (IH _ Hp) as [b ->]. exists b. reflexivity.
Qed.

Lemma occurs_at_zero (pat s : string) :
  occurs_at pat s 0 <-> String.prefix pat s = true.
Proof.
  split.
  - intros (a & b & -> & Ha). destruct a; [|discriminate].
    rewrite append_nil_l. apply prefix_append.
  - intros Hp. destruct (prefix_split _ _ Hp) as [b ->].
    exists "", b. split; reflexivity.
Qed.

Lemma occurs_at_succ (pat : string) (c : ascii) (s : string) (n : nat) :
  occurs_at pat (String c s) (S n) <-> occurs_at pat s n.
Proof.
  split.
  - intros (a & b & Hs & Ha). destruct a as [|d a]; [discriminate|].
    rewrite append_cons in Hs. injection Hs as -> ->.
    exists a, b. split; [reflexivity | now injection Ha].
  - intros (a & b & -> & Ha). exists (String c a), b.
    split; [reflexivity | cbn; now rewrite Ha].
Qed.

Lemma occurs_at_empty (pat : string) (n : nat) :
  occurs_at pat "" n -> n = O /\ pat = "".
Proof.
  intros (a & b & Hs & Ha). destruct a; [|discriminate].
  destruct pat; [|discriminate]. split; [now rewrite <- Ha | reflexivity].
Qed.

Lemma occurs_at_bound (pat s : string) (n : nat) :
  occurs_at pat s n -> (n + String.length pat <= String.length s)%nat.
Proof.
  intros (a & b & -> & <-). rewrite !length_append. lia.
Qed.

Lemma find_first_sound (pat s : string) (n : nat) :
  find_first pat s = Some n -> first_occurrence pat s n.
Proof.
  revert n. induction s as [|c s IH]; intros n; cbn [find_first].
  - destruct (String.prefix pat "") eqn:Hp; [|discriminate].
    intros [= <-]. split; [now apply occurs_at_zero | intros; lia].
  - destruct (String.prefix pat (String c s)) eqn:Hp.
    + intros [= <-]. split; [now apply occurs_at_zero | intros; lia].
    + destruct (find_first pat s) as [k|]; [|discriminate].
      intros [= <-]. destruct (IH k eq_refl) as [Hocc Hmin]. split.
      * now apply occurs_at_succ.
      * intros [|m] Hm.
        -- apply occurs_at_zero in Hm. congruence.
        -- apply occurs_at_succ in Hm. specialize (Hmin _ Hm). lia.
Qed.

Lemma find_first_none (pat s : string) (n : nat) :
  find_first pat s = None -> ~ occurs_at pat s n.
Proof.
  revert n. induction s as [|c s IH]; intros n; cbn [find_first].
  - destruct (String.prefix pat "") eqn:Hp; [discriminate|].
    intros _ Hocc. apply occurs_at_empty in Hocc as [-> ->]. discriminate.
  - destruct (String.prefix pat (String c s)) eqn:Hp; [discriminate|].
    destruct (find_first pat s) as [k|]; [discriminate|].
    intros _ Hocc. destruct n as [|n].
    + apply occurs_at_zero in Hocc. congruence.
    + apply occurs_at_succ in Hocc. now apply (IH n).
Qed.

Lemma first_occurrence_unique (pat s : string) (n m : nat) :
  first_occurrence pat s n -> first_occurrence pat s m -> n = m.
Proof.
  intros [Hn Hnmin] [Hm Hmmin]. specialize (Hnmin _ Hm).
  specialize (Hmmin _ Hn). lia.
Qed.

Lemma find_first_complete (pat s : string) (n : nat) :
  first_occurrence pat s n -> find_first pat s = Some n.
Proof.
  intros Hn. destruct (find_first pat s) as [k|] eqn:Hk.
  - f_equal. eapply first_occurrence_unique; [|exact Hn].
    now apply find_first_sound.
  - exfalso. eapply find_first_none; [exact Hk | apply Hn].
Qed.

Lemma find_first_occurs (pat s : string) (m : nat) :
  occurs_at pat s m -> exists n, find_first pat s = Some n /\ (n <= m)%nat.
Proof.
  intros Hm. destruct (find_first pat s) as [k|] eqn:Hk.
  - exists k. split; [reflexivity|]. apply find_first_sound in Hk. now apply Hk.
  - exfalso. eapply find_first_none; eauto.
Qed.

Lemma find_last_none (pat s : string) (n : nat) :
  find_last pat s = None -> ~ occurs_at pat s n.
Proof.
  revert n. induction s as [|c s IH]; intros n; cbn [find_last].
  - destruct (String.prefix pat "") eqn:Hp; [discriminate|].
    intros _ Hocc. apply occurs_at_empty in Hocc as [-> ->]. discriminate.
  - destruct (find_last pat s) as [k|]; [discriminate|].
    destruct (String.prefix pat (String c s)) eqn:Hp; [discriminate|].
    intros _ Hocc. destruct n as [|n].
    + apply occurs_at_zero in Hocc. congruence.
    + apply occurs_at_succ in Hocc. now apply (IH n).
Qed.

Lemma find_last_sound (pat s : string) (n : nat) :
  find_last pat s = Some n -> last_occurrence pat s n.
Proof.
  revert n. induction s as [|c s IH]; intros n; cbn [find_last].
  - destruct (String.prefix pat "") eqn:Hp; [|discriminate].
    intros [= <-]. split; [now apply occurs_at_zero|].
    intros m Hm. apply occurs_at_empty in Hm. lia.
  - destruct (find_last pat s) as [k|] eqn:Hk.
    + intros [= <-]. destruct (IH k eq_refl) as [Hocc Hmax]. split.
      * now apply occurs_at_succ.
      * intros [|m] Hm; [lia|]. apply occurs_at_succ in Hm.
        specialize (Hmax _ Hm). lia.
    + destruct (String.prefix pat (String c s)) eqn:Hp; [|discriminate].
      intros [= <-]. split; [now apply occurs_at_zero|].
      intros [|m] Hm; [lia|]. apply occurs_at_succ in Hm.
      exfalso. eapply find_last_none; eauto.
Qed.

Lemma last_occurrence_unique (pat s : string) (n m : nat) :
  last_occurrence pat s n -> last_occurrence pat s m -> n = m.
Proof.
  intros [Hn Hnmax] [Hm Hmmax]. specialize (Hnmax _ Hm).
  specialize (Hmmax _ Hn). lia.
Qed.

Lemma find_last_complete (pat s : string) (n : nat) :
  last_occurrence pat s n -> find_last pat s = Some n.
Proof.
  intros Hn. destruct (find_last pat s) as [k|] eqn:Hk.
  - f_equal. eapply last_occurrence_unique; [|exact Hn].
    now apply find_last_sound.
  - exfalso. eapply find_last_none; [exact Hk | apply Hn].
Qed.

(** ** Characters that do not occur *)

Lemma free_of_append (c : ascii) (a b : string) :
  free_of c (a ++ b) = free_of c a && free_of c b.
Proof.
  induction a as [|d a IH]; [reflexivity|].
  rewrite append_cons. cbn. rewrite IH. now rewrite andb_assoc.
Qed.

Lemma free_of_no_occurrence (c : ascii) (s : string) (n : nat) :
  free_of c s = true -> ~ occurs_at (String c "") s n.
Proof.
  intros Hfree (a & b & -> & _). rewrite !free_of_append in Hfree.
  cbn in Hfree. rewrite Ascii.eqb_refl in Hfree. cbn in Hfree.
  now rewrite andb_false_r in Hfree.
Qed.

Lemma path_cases (c : ascii) (s : string) :
  free_of c s = true \/
  exists d n, s = d ++ String c n /\ free_of c n = true.
Proof.
  induction s as [|x s IH]; [now left|].
  destruct IH as [Hfree | (d & n & -> & Hn)].
  - destruct (Ascii.eqb x c) eqn:Hx.
    + right. apply Ascii.eqb_eq in Hx as ->. exists "", s. now split.
    + left. cbn. now rewrite Hx, Hfree.
  - right. exists (String x d), n. now split.
Qed.

(** ** Substrings and slices *)

Lemma substring_zero_zero (s : string) : String.substring 0 0 s = "".
Proof. now destruct s. Qed.

Lemma substring_prefix (a b : string) :
  String.substring 0 (String.length a) (a ++ b) = a.
Proof.
  induction a as [|c a IH]; [apply substring_zero_zero|].
  rewrite append_cons. cbn. now rewrite IH.
Qed.

Lemma substring_skip (a b : string) (m : nat) :
  String.substring (String.length a) m (a ++ b) = String.substring 0 m b.
Proof.
  induction a as [|c a IH]; [reflexivity|]. rewrite append_cons. exact IH.
Qed.

Lemma substring_all (s : string) :
  String.substring 0 (String.length s) s = s.
Proof. rewrite <- (append_empty_r s) at 2. apply substring_prefix. Qed.

Lemma substring_middle (a m b : string) :
  String.substring (String.length a) (String.length m) (a ++ m ++ b) = m.
Proof. rewrite substring_skip. apply substring_prefix. Qed.

Lemma drop_append (a b : string) : drop (String.length a) (a ++ b) = b.
Proof. induction a as [|c a IH]; [now destruct b | exact IH]. Qed.

Lemma relative_index_inside (length i : Z) :
  0 <= i <= length -> relative_index length i = i.
Proof.
  intros Hi. unfold relative_index.
  destruct (Z.ltb_spec i 0); lia.
Qed.

Lemma slice_inside (s : string) (i j : nat) :
  (i <= String.length s)%nat -> (j <= String.length s)%nat ->
  slice s (Z.of_nat i) (Some (Z.of_nat j)) = String.substring i (j - i) s.
Proof.
  intros Hi Hj. unfold slice.
  rewrite !relative_index_inside by lia.
  rewrite Nat2Z.id. f_equal. lia.
Qed.

Lemma slice_from_inside (s : string) (i : nat) :
  (i <= String.length s)%nat ->
  slice s (Z.of_nat i) None = String.substring i (String.length s - i) s.
Proof.
  intros Hi. unfold slice. rewrite relative_index_inside by lia.
  rewrite Nat2Z.id. f_equal. lia.
Qed.

Lemma slice_prefix (a b : string) :
  slice (a ++ b) 0 (Some (len a)) = a.
Proof.
  rewrite (slice_inside _ 0 (String.length a)); rewrite ?length_append; try lia.
  rewrite Nat.sub_0_r. apply substring_prefix.
Qed.

Lemma slice_suffix (a b : string) :
  slice (a ++ b) (len a) None = b.
Proof.
  rewrite slice_from_inside by (rewrite length_append; lia).
  rewrite length_append, substring_skip.
  replace (String.length a + String.length b - String.length a)%nat
    with (String.length b) by lia.
  apply substring_all.
Qed.

Lemma slice_middle (a m b : string) :
  slice (a ++ m ++ b) (len a) (Some (len a + len m)) = m.
Proof.
  replace (len a + len m) with (Z.of_nat (String.length a + String.length m)) by lia.
  rewrite slice_inside by (rewrite !length_append; lia).
  replace (String.length a + String.length m - String.length a)%nat
    with (String.length m) by lia.
  apply substring_middle.
Qed.

(** ** Replacing *)

Lemma replace_first_occurrence (pat rep a b : string) :
  first_occurrence pat (a ++ pat ++ b) (String.length a) ->
  replace pat rep (a ++ pat ++ b) = a ++ rep ++ b.
Proof.
  induction a as [|c a IH]; intros [Hocc Hmin].
  - rewrite !append_nil_l.
    destruct (pat ++ b) as [|x t] eqn:Ht; cbn [replace].
    + destruct pat; [|discriminate]. rewrite append_nil_l in Ht. subst b.
      cbn. now rewrite append_empty_r.
    + rewrite <- Ht, prefix_append, drop_append. reflexivity.
  - rewrite !append_cons. cbn [replace].
    destruct (String.prefix pat (String c (a ++ pat ++ b))) eqn:Hp.
    + apply occurs_at_zero in Hp. rewrite append_cons in Hmin.
      specialize (Hmin _ Hp). cbn in Hmin. lia.
    + f_equal. apply IH. rewrite append_cons in Hocc, Hmin. split.
      * now apply occurs_at_succ in Hocc.
      * intros m Hm. apply occurs_at_succ with (c := c) in Hm.
        specialize (Hmin _ Hm). cbn in Hmin. lia.
Qed.

Lemma replace_absent (pat rep s : string) :
  find_first pat s = None -> replace pat rep s = s.
Proof.
  induction s as [|c s IH]; cbn [find_first replace].
  - now destruct (String.prefix pat "").
  - destruct (String.prefix pat (String c s)); [discriminate|].
    destruct (find_first pat s); [discriminate|]. intros _. now rewrite IH.
Qed.

(** ** The last slash *)

Lemma find_last_free (c : ascii) (s : string) :
  free_of c s = true -> find_last (String c "") s = None.
Proof.
  intros Hfree. destruct (find_last (String c "") s) as [k|] eqn:Hk; [|reflexivity].
  apply find_last_sound in Hk as [Hocc _].
  now apply free_of_no_occurrence in Hocc.
Qed.

Lemma append_longer (d a x y : string) :
  d ++ x = a ++ y -> (String.length d < String.length a)%nat ->
  exists t, a = d ++ t /\ x = t ++ y /\ t <> "".
Proof.
  revert a. induction d as [|c d IH]; intros a Heq Hlt.
  - rewrite append_nil_l in Heq. exists a. repeat split; [assumption|].
    intros ->. cbn in Hlt. lia.
  - destruct a as [|e a]; [cbn in Hlt; lia|].
    rewrite !append_cons in Heq. injection Heq as -> Heq.
    destruct (IH a Heq) as (t & -> & -> & Ht); [cbn in Hlt; lia|].
    exists t. now repeat split.
Qed.

Lemma find_last_segment (c : ascii) (d n : string) :
  free_of c n = true ->
  find_last (String c "") (d ++ String c n) = Some (String.length d).
Proof.
  intros Hfree. apply find_last_complete. split.
  - exists d, n. now split.
  - intros m (a & b & Heq & <-).
    destruct (Nat.le_gt_cases (String.length a) (String.length d)) as [|Hgt]; [assumption|].
    exfalso. destruct (append_longer _ _ _ _ Heq Hgt) as (t & -> & Hn & Ht).
    destruct t as [|x t]; [congruence|]. rewrite append_cons in Hn.
    injection Hn as -> ->. rewrite !free_of_append in Hfree. cbn in Hfree.
    rewrite Ascii.eqb_refl in Hfree. cbn in Hfree.
    now rewrite andb_false_r in Hfree.
Qed.

Lemma replace_last_segment_free (s : string) :
  free_of "/" s = true -> replace_last_segment s = s.
Proof.
  induction s as [|c s IH]; [reflexivity|]. cbn.
  destruct (Ascii.eqb c "/"); cbn; [discriminate|].
  intros Hfree. now rewrite IH.
Qed.

Lemma replace_last_segment_path (d n : string) :
  free_of "/" n = true ->
  replace_last_segment (d ++ String "/" n) = d ++ "/I" ++ n.
Proof.
  intros Hfree. induction d as [|c d IH].
  - rewrite !append_nil_l. cbn. now rewrite Hfree.
  - rewrite !append_cons. cbn [replace_last_segment].
    rewrite free_of_append. cbn [free_of]. rewrite Ascii.eqb_refl. cbn.
    rewrite andb_false_r, andb_false_r. now rewrite IH.
Qed.

Lemma append_same_length (a b x y : string) :
  String.length a = String.length b -> a ++ x = b ++ y -> a = b /\ x = y.
Proof.
  revert b. induction a as [|c a IH]; intros [|d b] Hlen Heq; try discriminate.
  - now split.
  - rewrite !append_cons in Heq. injection Heq as -> Heq.
    injection Hlen as Hlen. destruct (IH b Hlen Heq) as [-> ->]. now split.
Qed.

Lemma append_cancel_r (a b x : string) : a ++ x = b ++ x -> a = b.
Proof.
  intros Heq. apply (append_same_length a b x x); [|assumption].
  apply (f_equal String.length) in Heq. rewrite !length_append in Heq. lia.
Qed.

Lemma replace_trailing (pat rep stem : string) :
  first_occurrence pat (stem ++ pat) (String.length stem) ->
  replace pat rep (stem ++ pat) = stem ++ rep.
Proof.
  intros Hfirst. pose proof (replace_first_occurrence pat rep stem "") as Hr.
  rewrite !append_empty_r in Hr. now apply Hr.
Qed.

Lemma indexOf_first_occurrence (s pat : string) (n : nat) :
  indexOf s pat = Z.of_nat n <-> first_occurrence pat s n.
Proof.
  unfold indexOf. split.
  - destruct (find_first pat s) as [k|] eqn:Hk; [|lia].
    intros Heq. apply Nat2Z.inj in Heq as <-. now apply find_first_sound.
  - intros Hn. now rewrite (find_first_complete _ _ _ Hn).
Qed.

Lemma lastIndexOf_free (c : ascii) (s : string) :
  free_of c s = true -> lastIndexOf s (String c "") = -1.
Proof. intros Hfree. unfold lastIndexOf. now rewrite find_last_free. Qed.

Lemma lastIndexOf_segment (c : ascii) (d n : string) :
  free_of c n = true -> lastIndexOf (d ++ String c n) (String c "") = len d.
Proof. intros Hfree. unfold lastIndexOf. now rewrite find_last_segment. Qed.

Lemma includes_occurs (s pat : string) :
  includes s pat = true <-> exists n, occurs_at pat s n.
Proof.
  unfold includes. split.
  - destruct (find_first pat s) as [k|] eqn:Hk; [|discriminate].
    intros _. exists k. now apply find_first_sound in Hk as [? _].
  - intros [n Hn]. now destruct (find_first_occurs _ _ _ Hn) as (k & -> & _).
Qed.

(** ** Splitting *)

Lemma split_nonempty (c : ascii) (s : string) : split c s <> [].
Proof.
  induction s as [|x s IH]; [discriminate|]. cbn.
  destruct (Ascii.eqb x c); [discriminate|]. now destruct (split c s).
Qed.

Lemma split_free (c : ascii) (s : string) :
  free_of c s = true -> split c s = [s].
Proof.
  induction s as [|x s IH]; [reflexivity|]. cbn.
  destruct (Ascii.eqb x c); [discriminate|]. cbn. intros Hfree.
  now rewrite IH.
Qed.

Lemma split_append (c : ascii) (a b : string) :
  split c (a ++ String c b) = (split c a ++ split c b)%list.
Proof.
  induction a as [|x a IH].
  - rewrite append_nil_l. cbn. now rewrite Ascii.eqb_refl.
  - rewrite append_cons. cbn [split]. rewrite IH.
    destruct (Ascii.eqb x c); [reflexivity|].
    pose proof (split_nonempty c a). now destruct (split c a).
Qed.

Lemma split_concat (c : ascii) (pieces : list string) :
  pieces <> [] -> Forall (fun p => free_of c p = true) pieces ->
  split c (String.concat (String c "") pieces) = pieces.
Proof.
  induction pieces as [|p [|q pieces] IH]; intros Hne Hall; [congruence | |].
  - cbn. apply split_free. now inversion Hall.
  - cbn [String.concat]. change (String c "" ++ ?x) with (String c x).
    rewrite split_append. inversion Hall as [|? ? Hp Hrest]; subst.
    rewrite split_free by assumption. cbn [app]. f_equal.
    apply IH; [discriminate | assumption].
Qed.

End JsStringFacts.

Import JsStringFacts.

(* ===================================================================== *)
(** * Paths *)
(* ===================================================================== *)

Section Paths.

Lemma scanned_path_source (path : string) :
  Spec.scanned_path path -> exists dir name, Spec.source_path dir name path.
Proof.
  intros [rest ->].
  destruct (path_cases "/" ("contracts/" ++ rest)) as [Hfree | (d & n & Heq & Hn)].
  - rewrite free_of_append in Hfree. discriminate.
  - exists d, n. split; [|assumption].
    rewrite <- (append_assoc "contracts/"), Heq, append_assoc. reflexivity.
Qed.

Lemma interfaceFilePath_source (dir name path : string) :
  Spec.source_path dir name path -> Spec.extension_only_trailing path ->
  helpers.interfaceFilePath path = Spec.interface_path dir name.
Proof.
  intros [-> Hname] (stem & Heq & Hfirst).
  assert (stem = dir ++ "/" ++ name) as ->.
  { symmetry. apply (append_cancel_r _ _ ".huff"). now rewrite !append_assoc. }
  clear Heq. unfold helpers.interfaceFilePath, Spec.interface_path.
  replace (dir ++ "/" ++ name ++ ".huff") with ((dir ++ "/" ++ name) ++ ".huff")
    in * by (now rewrite !append_assoc).
  rewrite replace_trailing by assumption.
  replace ((dir ++ "/" ++ name) ++ ".sol") with (dir ++ String "/" (name ++ ".sol"))
    by (now rewrite !append_assoc).
  rewrite replace_last_segment_path.
  - reflexivity.
  - rewrite free_of_append, Hname. reflexivity.
Qed.

Lemma huff_only_trailing_extension (path : string) :
  Spec.huff_only_trailing path -> Spec.extension_only_trailing path.
Proof.
  intros (stem & -> & Hocc & Hmin). exists stem. split; [reflexivity|]. split.
  - exists stem, "". now rewrite append_empty_r.
  - intros m (a & b & Heq & <-).
    assert (Hm : occurs_at "huff" (stem ++ ".huff") (S (String.length a))).
    { exists (a ++ "."), b. split.
      - rewrite Heq, !append_assoc. reflexivity.
      - rewrite length_append. cbn. lia. }
    specialize (Hmin _ Hm). lia.
Qed.

Lemma source_path_stem (dir name stem : string) :
  dir ++ "/" ++ name ++ ".huff" = stem ++ ".huff" -> stem = dir ++ "/" ++ name.
Proof.
  intros Heq. symmetry. apply (append_cancel_r _ _ ".huff").
  now rewrite !append_assoc.
Qed.

Lemma clean_path_source (dir name path : string) :
  Spec.source_path dir name path -> Spec.huff_only_trailing path ->
  HuffDeployer.clean_path path = Spec.interface_path dir name.
Proof.
  intros [-> Hname] (stem & Heq & Hfirst).
  apply source_path_stem in Heq as ->.
  unfold HuffDeployer.clean_path, Spec.interface_path.
  replace (dir ++ "/" ++ name ++ ".huff") with (((dir ++ "/" ++ name) ++ ".") ++ "huff")
    in * by (now rewrite !append_assoc).
  rewrite replace_trailing.
  2:{ replace (String.length ((dir ++ "/" ++ name) ++ "."))
        with (S (String.length (dir ++ "/" ++ name)))
        by (rewrite (length_append _ "."); cbn; lia).
      exact Hfirst. }
  replace (((dir ++ "/" ++ name) ++ ".") ++ "sol")
    with (dir ++ String "/" (name ++ ".sol")) by (now rewrite !append_assoc).
  rewrite lastIndexOf_segment by (now rewrite free_of_append, Hname).
  replace (dir ++ String "/" (name ++ ".sol")) with ((dir ++ "/") ++ name ++ ".sol")
    by (now rewrite !append_assoc).
  replace (len dir + 1) with (len (dir ++ "/")) by (rewrite length_append; cbn; lia).
  rewrite slice_prefix, slice_suffix. now rewrite !append_assoc.
Qed.

(** ** The name [deploy] extracts, against the stem of the path *)

Lemma basename_free (s : string) : free_of "/" s = true -> Spec.basename s = s.
Proof. intros Hfree. destruct s; [reflexivity|]. cbn [Spec.basename]. now rewrite Hfree. Qed.

Lemma basename_segment (d n : string) :
  free_of "/" n = true -> Spec.basename (d ++ String "/" n) = n.
Proof.
  intros Hfree. induction d as [|c d IH].
  - rewrite append_nil_l. cbn [Spec.basename free_of]. cbn.
    now apply basename_free.
  - rewrite append_cons. cbn [Spec.basename].
    replace (free_of "/" (String c (d ++ String "/" n))) with false; [exact IH|].
    cbn [free_of]. rewrite free_of_append. cbn [free_of].
    rewrite Ascii.eqb_refl. cbn. now rewrite !andb_false_r.
Qed.

Lemma strip_extension_append (ext a : string) :
  Spec.strip_extension ext (a ++ ext) = a.
Proof.
  induction a as [|c a IH].
  - rewrite append_nil_l. destruct ext; cbn; [reflexivity|].
    now rewrite Ascii.eqb_refl, String.eqb_refl.
  - rewrite append_cons.
    assert (Hne : String.eqb (String c (a ++ ext)) ext = false).
    { apply String.eqb_neq. intros Heq. apply (f_equal String.length) in Heq.
      cbn in Heq. rewrite length_append in Heq. lia. }
    cbn [Spec.strip_extension]. rewrite Hne. now rewrite IH.
Qed.

Lemma contractName_stem (path : string) :
  Spec.extension_only_trailing path ->
  helpers.contractName path = Spec.stem path.
Proof.
  intros (stem & -> & Hfirst). unfold helpers.contractName, Spec.stem.
  apply indexOf_first_occurrence in Hfirst. rewrite Hfirst.
  destruct (path_cases "/" stem) as [Hfree | (d & n & -> & Hn)].
  - rewrite lastIndexOf_free by (now rewrite free_of_append, Hfree).
    cbn [Z.add]. change (-1 + 1) with 0.
    rewrite slice_prefix.
    rewrite basename_free by (now rewrite free_of_append, Hfree).
    now rewrite strip_extension_append.
  - replace ((d ++ String "/" n) ++ ".huff") with (d ++ String "/" (n ++ ".huff"))
      by (now rewrite !append_assoc).
    rewrite lastIndexOf_segment by (now rewrite free_of_append, Hn).
    rewrite basename_segment by (now rewrite free_of_append, Hn).
    rewrite strip_extension_append.
    replace (d ++ String "/" (n ++ ".huff")) with ((d ++ "/") ++ n ++ ".huff")
      by (now rewrite !append_assoc).
    replace (len d + 1) with (len (d ++ "/")) by (rewrite length_append; cbn; lia).
    replace (len (d ++ String "/" n)) with (len (d ++ "/") + len n)
      by (rewrite !length_append; cbn; lia).
    apply slice_middle.
Qed.

End Paths.

(* ===================================================================== *)
(** * Scraping the interface file *)
(* ===================================================================== *)

(** ** The loop of [getContractAbi] *)

Lemma scrape_lines (text : string) :
  helpers.scrape text = map helpers.pushed (Spec.function_lines text).
Proof.
  unfold helpers.scrape, Spec.function_lines.
  assert (Hgen : forall lines acc,
    fold_left (fun (abi : list string) (line : string) =>
                 if includes line "function"
                 then (abi ++ [helpers.pushed line])%list else abi) lines acc
    = (acc ++ map helpers.pushed
         (List.filter (fun line => includes line "function") lines))%list).
  { induction lines as [|line lines IH]; intros acc; cbn.
    - now rewrite app_nil_r.
    - rewrite IH. destruct (includes line "function"); [|reflexivity].
      cbn. now rewrite <- app_assoc. }
  now rewrite Hgen.
Qed.

(** ** The fragment of a line *)

Lemma first_occurrence_free (c : ascii) (a b : string) :
  first_occurrence (String c "") (a ++ String c b) (String.length a) ->
  free_of c a = true.
Proof.
  intros [_ Hmin]. destruct (path_cases c a) as [Hfree | (d & n & -> & _)];
    [assumption|].
  exfalso.
  assert (Hocc : occurs_at (String c "") ((d ++ String c n) ++ String c b)
                   (String.length d)).
  { exists d, (n ++ String c b). split; [|reflexivity].
    now rewrite !append_assoc. }
  specialize (Hmin _ Hocc). rewrite length_append in Hmin. cbn in Hmin. lia.
Qed.

Lemma free_prefix_of (c : ascii) (k q t b : string) :
  k ++ q = t ++ String c b -> free_of c k = true -> exists r, t = k ++ r.
Proof.
  revert t. induction k as [|x k IH]; intros t Heq Hfree; [now exists t|].
  cbn in Hfree. apply andb_true_iff in Hfree as [Hx Hk].
  destruct t as [|y t].
  - rewrite append_cons, append_nil_l in Heq. injection Heq as -> _.
    now rewrite Ascii.eqb_refl in Hx.
  - rewrite !append_cons in Heq. injection Heq as -> Heq.
    destruct (IH _ Heq Hk) as [r ->]. now exists r.
Qed.

(** For a line whose first terminator comes after its first keyword, the
    pushed text is the span from that keyword to that terminator. *)
Lemma pushed_span (line : string) (i j : nat) :
  first_occurrence "function" line i ->
  first_occurrence ";" line j ->
  (i < j)%nat ->
  exists pre post,
    line = pre ++ helpers.pushed line ++ ";" ++ post /\
    String.length pre = i /\
    String.prefix "function" (helpers.pushed line) = true /\
    free_of ";" (helpers.pushed line) = true.
Proof.
  intros Hi Hj Hlt.
  assert (Hpushed : helpers.pushed line = String.substring i (j - i) line).
  { unfold helpers.pushed.
    rewrite (proj2 (indexOf_first_occurrence _ _ _) Hi).
    rewrite (proj2 (indexOf_first_occurrence _ _ _) Hj).
    destruct Hi as [Hi _], Hj as [Hj _].
    apply occurs_at_bound in Hi, Hj. apply slice_inside; lia. }
  destruct Hi as [(p & q & Hline & Hp) _].
  destruct (proj1 Hj) as (a & b & Hline' & Ha).
  assert (Hfree : free_of ";" a = true).
  { apply (first_occurrence_free _ a b). rewrite <- Ha in Hj.
    change (String ";" b) with (";" ++ b). now rewrite <- Hline'. }
  assert (Heq : p ++ "function" ++ q = a ++ ";" ++ b) by congruence.
  destruct (append_longer _ _ _ _ Heq) as (t & -> & Ht & _); [lia|].
  rewrite free_of_append in Hfree. apply andb_true_iff in Hfree as [_ Hfree].
  destruct (free_prefix_of ";" "function" q t b Ht eq_refl) as [r ->].
  assert (Hresult : helpers.pushed line = "function" ++ r).
  { rewrite Hpushed, Hline', <- Hp, <- Ha, length_append.
    replace (String.length p + String.length ("function" ++ r) - String.length p)%nat
      with (String.length ("function" ++ r)) by lia.
    rewrite append_assoc. apply substring_middle. }
  exists p, b. rewrite Hresult.
  split; [rewrite Hline'; now rewrite !append_assoc|].
  split; [assumption|]. split; [apply prefix_append | assumption].
Qed.

Lemma pushed_fragment (line : string) :
  Spec.first_terminator_after_keyword line ->
  Spec.fragment_of line (helpers.pushed line).
Proof.
  intros (i & j & Hi & Hj & Hlt).
  destruct (pushed_span line i j Hi Hj Hlt)
    as (pre & post & Hline & Hpre & Hprefix & Hfree).
  exists pre, post. rewrite Hpre. now repeat split; try apply Hi.
Qed.

Section Abi.
Context `{Runtime}.

Lemma getContractAbi_run (filePath text : string) (w : World) :
  fs w !! helpers.interfaceFilePath filePath = Some text ->
  helpers.getContractAbi filePath w
  = (Fulfilled (helpers.scrape text),
     emit (EvReadFile (helpers.interfaceFilePath filePath)) w).
Proof.
  intros Hfile. unfold helpers.getContractAbi, bind, readFileSync.
  now rewrite Hfile.
Qed.

(** C3, as amended.  For every interface-file text with exactly [N]
    lines that contain the keyword [function], in each of which the first
    [;] of the line comes after the first occurrence of the keyword (no [;]
    stands before the keyword), [getContractAbi] returns exactly [N]
    fragments, in line order, each the span of its line from the first
    occurrence of [function] up to, and without, the first [;] that
    follows. *)
Theorem getContractAbi_fragments (filePath text : string) (N : nat) (w : World) :
  fs w !! helpers.interfaceFilePath filePath = Some text ->
  List.length (Spec.function_lines text) = N ->
  (forall line, In line (Spec.function_lines text) ->
                Spec.first_terminator_after_keyword line) ->
  exists abi,
    helpers.getContractAbi filePath w
    = (Fulfilled abi, emit (EvReadFile (helpers.interfaceFilePath filePath)) w) /\
    List.length abi = N /\
    Forall2 Spec.fragment_of (Spec.function_lines text) abi.
Proof.
  intros Hfile HN Hlines. exists (helpers.scrape text).
  split; [now apply getContractAbi_run|]. rewrite scrape_lines.
  split; [now rewrite length_map|].
  clear HN Hfile. revert Hlines.
  induction (Spec.function_lines text) as [|line lines IH]; intros Hlines;
    cbn; constructor.
  - apply pushed_fragment, Hlines. now left.
  - apply IH. intros l Hl. apply Hlines. now right.
Qed.

End Abi.

(* ===================================================================== *)
(** * The compiler command line *)
(* ===================================================================== *)

Section Commands.
Context `{Runtime}.

Lemma join_from_concat (sep R : string) (k : nat) (elements : list any) :
  helpers.join_from sep R k elements
  = match elements with
    | [] => R
    | _ => (if Nat.eqb k 0 then R else R ++ sep)
             ++ String.concat sep (map join_text elements)
    end.
Proof.
  revert R k. induction elements as [|e rest IH]; intros R k; [reflexivity|].
  cbn [helpers.join_from]. rewrite IH. destruct rest as [|e' rest]; [reflexivity|].
  cbn [Nat.eqb map String.concat]. now rewrite !append_assoc.
Qed.

Lemma join_space_joined (constructorArgs : list any) :
  helpers.join " " constructorArgs = Spec.space_joined constructorArgs.
Proof.
  unfold helpers.join. rewrite join_from_concat.
  now destruct constructorArgs.
Qed.

Lemma argString_rendered (compilerArgs : list HuffDeployer.CompilerArg) :
  HuffDeployer.argString (Some compilerArgs)
  = " " ++ Spec.rendered_flags compilerArgs.
Proof.
  unfold HuffDeployer.argString. generalize " " as acc.
  induction compilerArgs as [|arg rest IH]; intros acc; cbn [fold_left Spec.rendered_flags fold_right].
  - now rewrite append_empty_r.
  - rewrite IH. unfold HuffDeployer.append_flag, Spec.rendered_flag.
    destruct (HuffDeployer.full arg); now rewrite !append_assoc.
Qed.

Lemma words_cons_word (word rest : string) :
  free_of " " word = true ->
  Spec.words (word ++ String " " rest) = word :: Spec.words rest.
Proof.
  intros Hword. unfold Spec.words. rewrite split_append.
  now rewrite split_free by assumption.
Qed.

Lemma words_snoc_word (text word : string) :
  free_of " " word = true ->
  Spec.words (text ++ String " " word) = (Spec.words text ++ [word])%list.
Proof.
  intros Hword. unfold Spec.words. rewrite split_append.
  now rewrite (split_free _ word) by assumption.
Qed.

Lemma words_command_without_args (filePath : string) :
  Spec.words ("huffc " ++ filePath ++ " --bytecode")
  = (["huffc"] ++ Spec.words filePath ++ ["--bytecode"])%list.
Proof.
  change ("huffc " ++ filePath ++ " --bytecode")
    with ("huffc" ++ String " " (filePath ++ String " " "--bytecode")).
  rewrite words_cons_word by reflexivity.
  now rewrite words_snoc_word by reflexivity.
Qed.

Lemma words_space_joined (constructorArgs : list any) :
  constructorArgs <> [] -> Forall Spec.single_word constructorArgs ->
  Spec.words (Spec.space_joined constructorArgs) = map join_text constructorArgs.
Proof.
  intros Hne Hall. unfold Spec.words, Spec.space_joined. apply split_concat.
  - now destruct constructorArgs.
  - apply Forall_map. exact Hall.
Qed.

Lemma words_command_with_args (filePath : string) (constructorArgs : list any) :
  Spec.words ("huffc " ++ filePath ++ " -i " ++ Spec.space_joined constructorArgs
                ++ " --bytecode")
  = (["huffc"] ++ Spec.words filePath ++ ["-i"]
       ++ Spec.words (Spec.space_joined constructorArgs) ++ ["--bytecode"])%list.
Proof.
  replace ("huffc " ++ filePath ++ " -i " ++ Spec.space_joined constructorArgs
             ++ " --bytecode")
    with ("huffc" ++ String " "
            (((filePath ++ String " " "-i") ++ String " "
                (Spec.space_joined constructorArgs)) ++ String " " "--bytecode")).
  2:{ rewrite !append_assoc. reflexivity. }
  rewrite words_cons_word by reflexivity.
  rewrite words_snoc_word by reflexivity.
  unfold Spec.words at 1. rewrite split_append.
  fold (Spec.words (filePath ++ String " " "-i")).
  rewrite words_snoc_word by reflexivity.
  cbn [app]. now rewrite <- !app_assoc.
Qed.

Lemma argString_flags (compilerArgs : option (list HuffDeployer.CompilerArg)) :
  HuffDeployer.argString compilerArgs = Spec.compiler_flags compilerArgs.
Proof. destruct compilerArgs; [apply argString_rendered | reflexivity]. Qed.

Lemma words_command_with_flags
    (command : string) (compilerArgs : option (list HuffDeployer.CompilerArg)) :
  forall word,
    In word (Spec.words (command ++ Spec.compiler_flags compilerArgs)) ->
    In word (Spec.words command) \/
    In word (Spec.words (Spec.compiler_flags compilerArgs)).
Proof.
  intros word. destruct compilerArgs as [flags|]; cbn [Spec.compiler_flags].
  - change (" " ++ Spec.rendered_flags flags)
      with ("" ++ String " " (Spec.rendered_flags flags)).
    change (command ++ "" ++ String " " (Spec.rendered_flags flags))
      with (command ++ String " " (Spec.rendered_flags flags)).
    unfold Spec.words. rewrite !split_append, !in_app_iff. tauto.
  - rewrite append_empty_r. tauto.
Qed.

(** ** The command that [getContractBytecode] runs *)

Lemma exec_runs_command (command : string) :
  Spec.runs_command
    (await r <- exec command;
     match r with
     | inl err => throw (Foreign err)
     | inr stdout => ret stdout
     end)
    command.
Proof.
  intros w. unfold bind, exec.
  destruct (child_process_exec command (fs w)) as [[err|stdout] files'];
    reflexivity.
Qed.

Lemma helpers_getContractBytecode_runs
    (filePath : string) (constructorArgs : option (list any)) :
  Spec.runs_command (helpers.getContractBytecode filePath constructorArgs)
    (match constructorArgs with
     | Some constructorArgs =>
         "huffc " ++ filePath ++ " -i " ++ Spec.space_joined constructorArgs
           ++ " --bytecode"
     | None => "huffc " ++ filePath ++ " --bytecode"
     end).
Proof.
  unfold helpers.getContractBytecode.
  destruct constructorArgs as [args|]; cbn [helpers.bytecode_command];
    rewrite ?join_space_joined; apply exec_runs_command.
Qed.

Lemma HuffDeployer_getContractBytecode_runs
    (filePath : string) (constructorArgs : option (list any))
    (compilerArgs : option (list HuffDeployer.CompilerArg)) :
  Spec.runs_command
    (HuffDeployer.getContractBytecode filePath constructorArgs compilerArgs)
    (match constructorArgs with
     | Some constructorArgs =>
         "huffc " ++ filePath ++ " -i " ++ Spec.space_joined constructorArgs
           ++ " --bytecode" ++ Spec.compiler_flags compilerArgs
     | None => "huffc " ++ filePath ++ " --bytecode"
                 ++ Spec.compiler_flags compilerArgs
     end).
Proof.
  unfold HuffDeployer.getContractBytecode.
  destruct constructorArgs as [args|]; cbn [HuffDeployer.bytecode_command];
    rewrite ?join_space_joined, argString_flags; apply exec_runs_command.
Qed.

(** C4, as amended.  For every defined constructor-argument list,
    [getContractBytecode], in helpers.ts and in HuffDeployer.ts, runs
    exactly the command [huffc <file> -i <a1 a2 ...> --bytecode] (followed
    in HuffDeployer.ts by the compiler flags): the arguments joined by
    single spaces in their original order right after the [-i] flag; as
    words of the command line, one-word arguments follow the word [-i] one
    by one.  With the list undefined it runs exactly
    [huffc <file> --bytecode] (followed in HuffDeployer.ts by the compiler
    flags), and this command has no word [-i] when the file path, and in
    HuffDeployer.ts the rendered compiler flags, have none.  In each case
    the result of the call is the standard output of that command, or the
    rejection with its error. *)
Theorem bytecode_command_input_flag (filePath : string) :
  (forall constructorArgs,
     Spec.runs_command
       (helpers.getContractBytecode filePath (Some constructorArgs))
       ("huffc " ++ filePath ++ " -i " ++ Spec.space_joined constructorArgs
          ++ " --bytecode") /\
     (constructorArgs <> [] -> Forall Spec.single_word constructorArgs ->
      Spec.words ("huffc " ++ filePath ++ " -i "
                    ++ Spec.space_joined constructorArgs ++ " --bytecode")
      = (["huffc"] ++ Spec.words filePath ++ ["-i"]
           ++ map join_text constructorArgs ++ ["--bytecode"])%list)) /\
  (forall constructorArgs compilerArgs,
     Spec.runs_command
       (HuffDeployer.getContractBytecode filePath (Some constructorArgs)
          compilerArgs)
       ("huffc " ++ filePath ++ " -i " ++ Spec.space_joined constructorArgs
          ++ " --bytecode" ++ Spec.compiler_flags compilerArgs)) /\
  (Spec.runs_command (helpers.getContractBytecode filePath None)
     ("huffc " ++ filePath ++ " --bytecode") /\
   (~ In "-i" (Spec.words filePath) ->
    ~ In "-i" (Spec.words ("huffc " ++ filePath ++ " --bytecode")))) /\
  (forall compilerArgs,
     Spec.runs_command
       (HuffDeployer.getContractBytecode filePath None compilerArgs)
       ("huffc " ++ filePath ++ " --bytecode"
          ++ Spec.compiler_flags compilerArgs) /\
     (~ In "-i" (Spec.words filePath) ->
      ~ In "-i" (Spec.words (Spec.compiler_flags compilerArgs)) ->
      ~ In "-i" (Spec.words ("huffc " ++ filePath ++ " --bytecode"
                               ++ Spec.compiler_flags compilerArgs)))).
Proof.
  assert (Hplain : ~ In "-i" (Spec.words filePath) ->
                   ~ In "-i" (Spec.words ("huffc " ++ filePath ++ " --bytecode"))).
  { intros Hpath. rewrite words_command_without_args, !in_app_iff. cbn [In].
    intuition discriminate. }
  split; [|split; [|split]].
  - intros constructorArgs. split.
    + apply (helpers_getContractBytecode_runs filePath (Some constructorArgs)).
    + intros Hne Hall. rewrite words_command_with_args.
      now rewrite words_space_joined.
  - intros constructorArgs compilerArgs.
    apply (HuffDeployer_getContractBytecode_runs filePath (Some constructorArgs)).
  - split; [apply (helpers_getContractBytecode_runs filePath None) | exact Hplain].
  - intros compilerArgs. split.
    + apply (HuffDeployer_getContractBytecode_runs filePath None).
    + intros Hpath Hflags Hin.
      change ("huffc " ++ filePath ++ " --bytecode"
                ++ Spec.compiler_flags compilerArgs)
        with ("huffc " ++ (filePath ++ " --bytecode"
                ++ Spec.compiler_flags compilerArgs)) in Hin.
      replace ("huffc " ++ (filePath ++ " --bytecode"
                              ++ Spec.compiler_flags compilerArgs))
        with (("huffc " ++ filePath ++ " --bytecode")
                ++ Spec.compiler_flags compilerArgs) in Hin
        by (now rewrite !append_assoc).
      apply words_command_with_flags in Hin as [Hin|Hin];
        [now apply Hplain | now apply Hflags].
Qed.

(** C8.  For every compiler-flag sequence passed to
    [getContractBytecode] of HuffDeployer.ts, the call runs exactly this
    command: the command without flags, a space, and then the flags in
    sequence order, each rendered after a space as [--<key> <value>] when
    its [full] selector is true and as [-<key> <value>] when it is false;
    its result is the standard output of that command, or the rejection
    with its error.  The command string the function builds is the one it
    builds without flags, followed by that rendering. *)
Theorem bytecode_command_flags
    (filePath : string) (constructorArgs : option (list any))
    (compilerArgs : list HuffDeployer.CompilerArg) :
  Spec.runs_command
    (HuffDeployer.getContractBytecode filePath constructorArgs
       (Some compilerArgs))
    ((match constructorArgs with
      | Some constructorArgs =>
          "huffc " ++ filePath ++ " -i " ++ Spec.space_joined constructorArgs
            ++ " --bytecode"
      | None => "huffc " ++ filePath ++ " --bytecode"
      end) ++ " " ++ Spec.rendered_flags compilerArgs) /\
  HuffDeployer.bytecode_command filePath constructorArgs (Some compilerArgs)
  = HuffDeployer.bytecode_command filePath constructorArgs None
      ++ " " ++ Spec.rendered_flags compilerArgs.
Proof.
  split.
  - pose proof (HuffDeployer_getContractBytecode_runs filePath constructorArgs
                  (Some compilerArgs)) as Hruns.
    destruct constructorArgs as [args|]; cbn [Spec.compiler_flags] in Hruns;
      now rewrite !append_assoc.
  - destruct constructorArgs as [args|]; cbn [HuffDeployer.bytecode_command];
      rewrite argString_rendered; cbn [HuffDeployer.argString];
      now rewrite !append_assoc, ?append_empty_r, ?append_nil_l.
Qed.

End Commands.

(* ===================================================================== *)
(** * The deploy pipeline *)
(* ===================================================================== *)

Section Pipeline.
Context `{Runtime}.

Lemma bind_ret_r {A : Type} (m : M A) (w : World) : bind m ret w = m w.
Proof. unfold bind, ret. now destruct (m w) as [[a|e|e] w']. Qed.

Lemma bind_fulfilled {A B : Type} (m : M A) (k : A -> M B) (w w' : World) (b : B) :
  bind m k w = (Fulfilled b, w') ->
  exists a w1, m w = (Fulfilled a, w1) /\ k a w1 = (Fulfilled b, w').
Proof.
  unfold bind. destruct (m w) as [[a|e|e] w1]; try discriminate.
  intros Hk. now exists a, w1.
Qed.

Lemma bind_assoc {A B C : Type} (m : M A) (k : A -> M B) (k' : B -> M C) (w : World) :
  bind (bind m k) k' w = bind m (fun a => bind (k a) k') w.
Proof. unfold bind. now destruct (m w) as [[a|e|e] w']. Qed.

Lemma bind_ext {A B : Type} (m : M A) (k k' : A -> M B) (w : World) :
  (forall a w1, k a w1 = k' a w1) -> bind m k w = bind m k' w.
Proof. intros Hk. unfold bind. destruct (m w) as [[a|e|e] w']; auto. Qed.

(** ** The compiler check *)

Lemma verify_passes (w : World) (stdout : string) (files' : gmap string string) :
  child_process_exec "huffc --version" (fs w) = (inr stdout, files') ->
  includes stdout "0.0." = false ->
  helpers.verifyHuffCompiler w
  = (Fulfilled tt,
     mkWorld _ files' (chain w) (log w ++ [EvExec "huffc --version"])).
Proof.
  intros Hexec Hversion. unfold helpers.verifyHuffCompiler, bind, exec.
  rewrite Hexec. cbn. now rewrite Hversion.
Qed.

Lemma verify_fulfilled (w w' : World) :
  helpers.verifyHuffCompiler w = (Fulfilled tt, w') ->
  exists stdout files',
    child_process_exec "huffc --version" (fs w) = (inr stdout, files') /\
    includes stdout "0.0." = false /\
    w' = mkWorld _ files' (chain w) (log w ++ [EvExec "huffc --version"]).
Proof.
  unfold helpers.verifyHuffCompiler, bind, exec.
  destruct (child_process_exec "huffc --version" (fs w)) as [[err|stdout] files'];
    cbn; [discriminate|].
  destruct (includes stdout "0.0.") eqn:Hversion; cbn; [discriminate|].
  intros [= <-]. now exists stdout, files'.
Qed.

Section Call.
Variable targetContract : string.
Variable signer : option Signer.
Variable constructorArgs : option (list any).

Lemma deploy_after_scan (w : World) (stdout : string) (files' : gmap string string) :
  child_process_exec "huffc --version" (fs w) = (inr stdout, files') ->
  includes stdout "0.0." = false ->
  helpers.deploy targetContract signer constructorArgs w
  = bind (helpers.deploy_loop targetContract signer constructorArgs
            (glob_sync "contracts/**/*.huff" files') None)
      (fun contract =>
         match contract with
         | None =>
             throw (HardhatPluginError "HuffDeployer"
                      ("Contract " ++ targetContract ++ " not found."))
         | Some contract => ret contract
         end)
      (Spec.after_scan w files').
Proof.
  intros Hexec Hversion. unfold helpers.deploy.
  unfold bind at 1. rewrite (verify_passes _ _ _ Hexec Hversion).
  unfold bind at 1. unfold helpers.returnHuffFiles, emit, Spec.after_scan. cbn.
  now rewrite <- app_assoc.
Qed.

(** ** The loop *)

Lemma deploy_loop_each (huffFiles : list string) (contract : option Contract) (w : World) :
  helpers.deploy_loop targetContract signer constructorArgs huffFiles contract w
  = Spec.each_in_order targetContract signer constructorArgs
      (List.filter (helpers.matches targetContract) huffFiles) contract w.
Proof.
  revert contract w. induction huffFiles as [|filePath rest IH]; intros contract w;
    [reflexivity|].
  cbn [helpers.deploy_loop List.filter].
  destruct (helpers.matches targetContract filePath); [|apply IH].
  cbn [Spec.each_in_order]. unfold bind.
  destruct (helpers.deploy_file _ _ _ _ w) as [[c|e|e] w1]; [apply IH | reflexivity..].
Qed.

Lemma matches_stem (filePath : string) :
  Spec.extension_only_trailing filePath ->
  helpers.matches targetContract filePath
  = String.eqb (toLowerCase targetContract) (toLowerCase (Spec.stem filePath)).
Proof. intros Htrail. unfold helpers.matches. now rewrite contractName_stem. Qed.

Lemma filter_matches (huffFiles : list string) :
  Forall Spec.extension_only_trailing huffFiles ->
  List.filter (helpers.matches targetContract) huffFiles
  = Spec.matching targetContract huffFiles.
Proof.
  intros Hall. unfold Spec.matching. apply filter_ext_in.
  intros filePath Hin. apply matches_stem.
  exact (proj1 (List.Forall_forall _ _) Hall filePath Hin).
Qed.

Lemma each_in_order_app (files1 files2 : list string) (contract : option Contract) (w : World) :
  Spec.each_in_order targetContract signer constructorArgs (files1 ++ files2) contract w
  = bind (Spec.each_in_order targetContract signer constructorArgs files1 contract)
      (Spec.each_in_order targetContract signer constructorArgs files2) w.
Proof.
  revert contract w. induction files1 as [|filePath rest IH]; intros contract w;
    [reflexivity|].
  cbn [app Spec.each_in_order]. rewrite bind_assoc. apply bind_ext.
  intros c w1. apply IH.
Qed.

(** The whole call, once the compiler check has passed: the per-file
    sequence on the files [deploy] matches, in discovery order, and then the
    test of [contract]. *)
Lemma deploy_each_matching (w : World) (stdout : string) (files' : gmap string string) :
  child_process_exec "huffc --version" (fs w) = (inr stdout, files') ->
  includes stdout "0.0." = false ->
  helpers.deploy targetContract signer constructorArgs w
  = bind (Spec.each_in_order targetContract signer constructorArgs
            (List.filter (helpers.matches targetContract)
               (glob_sync "contracts/**/*.huff" files')) None)
      (fun contract =>
         match contract with
         | None =>
             throw (HardhatPluginError "HuffDeployer"
                      ("Contract " ++ targetContract ++ " not found."))
         | Some contract => ret contract
         end)
      (Spec.after_scan w files').
Proof.
  intros Hexec Hversion. rewrite (deploy_after_scan _ _ _ Hexec Hversion).
  unfold bind. now rewrite deploy_loop_each.
Qed.

(** ** One file *)

Lemma getContractBytecode_fulfilled (filePath bytecode : string) (w w' : World) :
  helpers.getContractBytecode filePath constructorArgs w = (Fulfilled bytecode, w') ->
  log w' = (log w ++ [EvExec (helpers.bytecode_command filePath constructorArgs)])%list.
Proof.
  unfold helpers.getContractBytecode, bind, exec, throw, ret.
  destruct (child_process_exec _ (fs w)) as [[err|stdout] files']; [discriminate|].
  now intros [= _ <-].
Qed.

Lemma generateContractInterface_fulfilled (filePath : string) (w w' : World) :
  helpers.generateContractInterface filePath w = (Fulfilled tt, w') ->
  log w' = (log w ++ [EvExec (helpers.interface_command filePath)])%list.
Proof.
  unfold helpers.generateContractInterface, bind, exec, throw, ret.
  destruct (child_process_exec _ (fs w)) as [[err|stdout] files']; [discriminate|].
  now intros [= <-].
Qed.

Lemma getContractAbi_fulfilled (filePath : string) (abi : list string) (w w' : World) :
  helpers.getContractAbi filePath w = (Fulfilled abi, w') ->
  w' = emit (EvReadFile (helpers.interfaceFilePath filePath)) w.
Proof.
  unfold helpers.getContractAbi, bind, readFileSync, ret.
  destruct (fs w !! helpers.interfaceFilePath filePath); [|discriminate].
  now intros [= _ <-].
Qed.

Lemma hre_getContractFactory_fulfilled
    (abi : list string) (bytecode : string) (factory : ContractFactory) (w w' : World) :
  hre_getContractFactory abi bytecode signer w = (Fulfilled factory, w') ->
  fs w' = fs w /\ log w' = (log w ++ [EvGetContractFactory abi bytecode])%list.
Proof.
  unfold hre_getContractFactory.
  destruct (getContractFactory abi bytecode signer (chain w)) as [[err|f] chain'];
    [discriminate|].
  now intros [= _ <-].
Qed.

Lemma deploy_factory_fulfilled
    (factory : ContractFactory) (h : exn -> exn) (contract : Contract) (w w' : World) :
  try_rethrow (deploy_factory factory) h w = (Fulfilled contract, w') ->
  fs w' = fs w /\ log w' = (log w ++ [EvFactoryDeploy])%list.
Proof.
  unfold try_rethrow, deploy_factory.
  destruct (factory_deploy factory (chain w)) as [[err|c] chain']; [discriminate|].
  now intros [= _ <-].
Qed.

Lemma deploy_file_fulfilled (filePath : string) (contract : Contract) (w w' : World) :
  helpers.deploy_file targetContract signer constructorArgs filePath w
  = (Fulfilled contract, w') ->
  (exists events,
     Spec.sequence_of constructorArgs filePath events /\
     log w' = (log w ++ events)%list) /\
  (exists w0 w1,
     helpers.generateContractInterface filePath w0 = (Fulfilled tt, w1) /\
     fs w' = fs w1).
Proof.
  unfold helpers.deploy_file. intros Hrun.
  apply bind_fulfilled in Hrun as (bytecode & w1 & Hbytecode & Hrun).
  apply bind_fulfilled in Hrun as ([] & w2 & Hinterface & Hrun).
  apply bind_fulfilled in Hrun as (abi & w3 & Habi & Hrun).
  apply bind_fulfilled in Hrun as (factory & w4 & Hfactory & Hrun).
  apply getContractBytecode_fulfilled in Hbytecode.
  pose proof (generateContractInterface_fulfilled _ _ _ Hinterface) as Hlog2.
  apply getContractAbi_fulfilled in Habi. subst w3.
  apply hre_getContractFactory_fulfilled in Hfactory as [Hfs4 Hlog4].
  apply deploy_factory_fulfilled in Hrun as [Hfs' Hlog']. split.
  - exists (Spec.file_sequence (helpers.bytecode_command filePath constructorArgs)
              (helpers.interface_command filePath)
              (helpers.interfaceFilePath filePath) abi bytecode).
    split; [now exists abi, bytecode|].
    rewrite Hlog', Hlog4. cbn [emit log]. rewrite Hlog2, Hbytecode.
    unfold Spec.file_sequence. now rewrite <- !app_assoc.
  - exists w1, w2. split; [assumption|]. now rewrite Hfs', Hfs4.
Qed.

Lemma each_in_order_fulfilled
    (files : list string) (kept kept' : option Contract) (w w' : World) :
  Spec.each_in_order targetContract signer constructorArgs files kept w
  = (Fulfilled kept', w') ->
  exists segments,
    Forall2 (Spec.sequence_of constructorArgs) files segments /\
    log w' = (log w ++ List.concat segments)%list.
Proof.
  revert kept w. induction files as [|filePath rest IH]; intros kept w Hrun.
  - injection Hrun as _ <-. exists []. split; [constructor | now rewrite app_nil_r].
  - cbn [Spec.each_in_order] in Hrun.
    apply bind_fulfilled in Hrun as (c & w1 & Hfile & Hrest).
    apply deploy_file_fulfilled in Hfile as [(events & Hseq & Hlog) _].
    destruct (IH _ _ Hrest) as (segments & Hall & Hlog').
    exists (events :: segments). split; [now constructor|].
    rewrite Hlog', Hlog. cbn [List.concat]. now rewrite <- app_assoc.
Qed.

Lemma each_in_order_last
    (files : list string) (kept : option Contract) (contract : Contract) (w w' : World) :
  Spec.each_in_order targetContract signer constructorArgs files kept w
  = (Fulfilled (Some contract), w') ->
  (files = [] /\ kept = Some contract /\ w = w') \/
  exists last w0 before,
    In last files /\
    log w0 = (log w ++ before)%list /\
    helpers.deploy_file targetContract signer constructorArgs last w0
    = (Fulfilled contract, w').
Proof.
  revert kept w. induction files as [|filePath rest IH]; intros kept w Hrun.
  - left. now injection Hrun as -> ->.
  - right. cbn [Spec.each_in_order] in Hrun.
    apply bind_fulfilled in Hrun as (c & w1 & Hfile & Hrest).
    destruct (IH _ _ Hrest)
      as [(-> & [= ->] & ->) | (last & w0 & before & Hin & Hlog & Hlast)].
    + exists filePath, w, []. rewrite app_nil_r. repeat split; [now left | assumption].
    + apply deploy_file_fulfilled in Hfile as [(events & _ & Hlog1) _].
      exists last, w0, (events ++ before)%list.
      split; [now right|]. split; [|assumption].
      now rewrite Hlog, Hlog1, <- app_assoc.
Qed.

Lemma deploy_fulfilled_last (contract : Contract) (w w' : World) :
  helpers.deploy targetContract signer constructorArgs w = (Fulfilled contract, w') ->
  exists last w0 before,
    log w0 = (log w ++ before)%list /\
    helpers.deploy_file targetContract signer constructorArgs last w0
    = (Fulfilled contract, w').
Proof.
  unfold helpers.deploy. intros Hrun.
  apply bind_fulfilled in Hrun as ([] & w1 & Hverify & Hrun).
  apply bind_fulfilled in Hrun as (huffFiles & w2 & Hscan & Hrun).
  apply bind_fulfilled in Hrun as (kept & w3 & Hloop & Hrun).
  destruct kept as [c|]; [|discriminate]. injection Hrun as -> ->.
  apply verify_fulfilled in Hverify as (stdout & files' & _ & _ & ->).
  injection Hscan as _ <-.
  rewrite deploy_loop_each in Hloop.
  apply each_in_order_last in Hloop
    as [(_ & [=] & _) | (last & w0 & before & _ & Hlog & Hlast)].
  exists last, w0, ([EvExec "huffc --version"; EvGlob "contracts/**/*.huff"] ++ before)%list.
  split; [|assumption]. rewrite Hlog. cbn [emit log]. now rewrite <- !app_assoc.
Qed.

End Call.
End Pipeline.

(* ===================================================================== *)
(** * Nothing is deleted *)
(* ===================================================================== *)

Section Frame.
Context `{Runtime}.

Lemma files_after_app (events1 events2 : list Event) (files : gmap string string) :
  Spec.files_after (events1 ++ events2) files
  = Spec.files_after events2 (Spec.files_after events1 files).
Proof. unfold Spec.files_after. apply fold_left_app. Qed.

Lemma deletes_nothing_silent {A : Type} (m : M A) :
  (forall w, snd (m w) = w) -> Spec.deletes_nothing m.
Proof.
  intros Hsame w r w' Hrun. exists []. specialize (Hsame w). rewrite Hrun in Hsame.
  cbn in Hsame. subst w'. now rewrite app_nil_r.
Qed.

Lemma deletes_nothing_ret {A : Type} (a : A) : Spec.deletes_nothing (ret a).
Proof. now apply deletes_nothing_silent. Qed.

Lemma deletes_nothing_throw {A : Type} (e : exn) : Spec.deletes_nothing (@throw _ A e).
Proof. now apply deletes_nothing_silent. Qed.

Lemma deletes_nothing_throw_in_callback {A : Type} (e : exn) :
  Spec.deletes_nothing (@throw_in_callback _ A e).
Proof. now apply deletes_nothing_silent. Qed.

Lemma deletes_nothing_bind {A B : Type} (m : M A) (k : A -> M B) :
  Spec.deletes_nothing m -> (forall a, Spec.deletes_nothing (k a)) ->
  Spec.deletes_nothing (bind m k).
Proof.
  intros Hm Hk w r w' Hrun. unfold bind in Hrun.
  destruct (m w) as [[a|e|e] w1] eqn:Hmw;
    destruct (Hm _ _ _ Hmw) as (events1 & Hlog1 & Hquiet1 & Hfs1).
  - destruct (Hk a _ _ _ Hrun) as (events2 & Hlog2 & Hquiet2 & Hfs2).
    exists (events1 ++ events2)%list. repeat split.
    + now rewrite Hlog2, Hlog1, <- app_assoc.
    + now rewrite forallb_app, Hquiet1, Hquiet2.
    + now rewrite files_after_app, <- Hfs1.
  - injection Hrun as <- <-. now exists events1.
  - injection Hrun as <- <-. now exists events1.
Qed.

Lemma deletes_nothing_try_rethrow {A : Type} (m : M A) (h : exn -> exn) :
  Spec.deletes_nothing m -> Spec.deletes_nothing (try_rethrow m h).
Proof.
  intros Hm w r w' Hrun. unfold try_rethrow in Hrun.
  destruct (m w) as [[a|e|e] w1] eqn:Hmw; injection Hrun as <- <-;
    exact (Hm _ _ _ Hmw).
Qed.

Lemma deletes_nothing_exec (command : string) : Spec.deletes_nothing (exec command).
Proof.
  intros w r w'. unfold exec.
  destruct (child_process_exec command (fs w)) as [result files'] eqn:Hexec.
  intros [= <- <-]. exists [EvExec command]. repeat split. cbn. now rewrite Hexec.
Qed.

Lemma deletes_nothing_emit {A : Type} (m : M A) (event : Event) :
  match event with EvExec _ | EvUnlink _ => False | _ => True end ->
  (forall w, snd (m w) = emit event w) -> Spec.deletes_nothing m.
Proof.
  intros Hevent Hsame w r w' Hrun. exists [event]. specialize (Hsame w).
  rewrite Hrun in Hsame. cbn in Hsame. subst w'.
  now destruct event.
Qed.

Lemma deletes_nothing_readFileSync (path : string) :
  Spec.deletes_nothing (readFileSync path).
Proof.
  apply deletes_nothing_emit with (event := EvReadFile path); [exact I|].
  intros w. unfold readFileSync. now destruct (fs w !! path).
Qed.

Lemma deletes_nothing_returnHuffFiles : Spec.deletes_nothing helpers.returnHuffFiles.
Proof. now apply deletes_nothing_emit with (event := EvGlob "contracts/**/*.huff"). Qed.

Lemma deletes_nothing_getSigners : Spec.deletes_nothing hre_getSigners.
Proof.
  apply deletes_nothing_emit with (event := EvGetSigners); [exact I|].
  intros w. unfold hre_getSigners. now destruct (getSigners (chain w)).
Qed.

Lemma deletes_nothing_getContractFactory
    (abi : list string) (bytecode : string) (signer : option Signer) :
  Spec.deletes_nothing (hre_getContractFactory abi bytecode signer).
Proof.
  intros w r w'. unfold hre_getContractFactory.
  destruct (getContractFactory abi bytecode signer (chain w)) as [[err|f] chain'];
    intros [= <- <-]; now exists [EvGetContractFactory abi bytecode].
Qed.

Lemma deletes_nothing_deploy_factory (factory : ContractFactory) :
  Spec.deletes_nothing (deploy_factory factory).
Proof.
  intros w r w'. unfold deploy_factory.
  destruct (factory_deploy factory (chain w)) as [[err|c] chain'];
    intros [= <- <-]; now exists [EvFactoryDeploy].
Qed.

Create HintDb frame discriminated.
#[local] Hint Resolve deletes_nothing_ret deletes_nothing_throw
  deletes_nothing_throw_in_callback deletes_nothing_try_rethrow
  deletes_nothing_exec deletes_nothing_readFileSync
  deletes_nothing_returnHuffFiles deletes_nothing_getSigners
  deletes_nothing_getContractFactory deletes_nothing_deploy_factory : frame.

Ltac frame :=
  repeat first
    [ apply deletes_nothing_bind; [|intros ?]
    | match goal with
      | |- Spec.deletes_nothing (match ?x with _ => _ end) => destruct x
      | |- Spec.deletes_nothing (if ?b then _ else _) => destruct b
      end
    | solve [auto with frame] ].

Lemma deletes_nothing_deploy
    (targetContract : string) (signer : option Signer)
    (constructorArgs : option (list any)) :
  Spec.deletes_nothing (helpers.deploy targetContract signer constructorArgs).
Proof.
  assert (Hfile : forall filePath,
    Spec.deletes_nothing
      (helpers.deploy_file targetContract signer constructorArgs filePath)).
  { intros filePath. unfold helpers.deploy_file, helpers.getContractBytecode,
      helpers.generateContractInterface, helpers.getContractAbi. frame. }
  assert (Hloop : forall huffFiles contract,
    Spec.deletes_nothing
      (helpers.deploy_loop targetContract signer constructorArgs huffFiles contract)).
  { induction huffFiles as [|filePath rest IH]; intros contract;
      cbn [helpers.deploy_loop]; frame; auto. }
  unfold helpers.deploy, helpers.verifyHuffCompiler. frame; auto.
Qed.

Lemma deletes_nothing_method_deploy
    (targetContract : string) (constructorArgs : option (list any))
    (signer : option Signer) :
  Spec.deletes_nothing
    (HuffDeployer.method_deploy targetContract constructorArgs signer).
Proof.
  unfold HuffDeployer.method_deploy. apply deletes_nothing_bind.
  - destruct signer; frame.
  - intros s. apply deletes_nothing_deploy.
Qed.

End Frame.

(* ===================================================================== *)
(** * The claims of the specification *)
(* ===================================================================== *)

Section Claims.
Context `{Runtime}.

Lemma getContractAbi_log (filePath : string) (w : World) :
  log (snd (helpers.getContractAbi filePath w))
  = (log w ++ [EvReadFile (helpers.interfaceFilePath filePath)])%list.
Proof.
  unfold helpers.getContractAbi, bind, readFileSync.
  now destruct (fs w !! helpers.interfaceFilePath filePath).
Qed.

Lemma clean_log (filePath : string) (w : World) :
  In (EvUnlink (HuffDeployer.clean_path filePath))
     (log (snd (HuffDeployer.clean filePath w))).
Proof.
  unfold HuffDeployer.clean, unlinkSync, console_error.
  destruct (fs w !! HuffDeployer.clean_path filePath); cbn;
    rewrite !in_app_iff; cbn; tauto.
Qed.

(** C5, as amended.  For a source path [dir/name.huff] that contains [.huff]
    only as its trailing extension, [getContractAbi] reads exactly the
    path with the directory kept, the filename prefixed with [I] and the
    extension replaced by [.sol]: [contracts/dir/Token.huff] gives
    [contracts/dir/IToken.sol].  The one read is the only event it adds. *)
Theorem getContractAbi_reads_interface_file (dir name path : string) (w : World) :
  Spec.source_path dir name path ->
  Spec.extension_only_trailing path ->
  helpers.interfaceFilePath path = Spec.interface_path dir name /\
  log (snd (helpers.getContractAbi path w))
  = (log w ++ [EvReadFile (Spec.interface_path dir name)])%list.
Proof.
  intros Hsource Htrail. rewrite getContractAbi_log.
  now rewrite (interfaceFilePath_source _ _ _ Hsource Htrail).
Qed.

(** C10.  For every scanned source path in which the substring [huff]
    first occurs in the trailing [.huff] extension, the path that [clean]
    unlinks equals the interface-file path that [getContractAbi] reads for
    the same source path: same directory, basename prefixed with [I],
    extension [.sol]. *)
Theorem clean_unlinks_interface_file (path : string) (w1 w2 : World) :
  Spec.scanned_path path ->
  Spec.huff_only_trailing path ->
  exists dir name,
    Spec.source_path dir name path /\
    HuffDeployer.clean_path path = Spec.interface_path dir name /\
    HuffDeployer.interfaceFilePath path = Spec.interface_path dir name /\
    In (EvUnlink (Spec.interface_path dir name))
       (log (snd (HuffDeployer.clean path w1))) /\
    In (EvReadFile (Spec.interface_path dir name))
       (log (snd (HuffDeployer.getContractAbi path w2))).
Proof.
  intros Hscanned Htrail.
  destruct (scanned_path_source _ Hscanned) as (dir & name & Hsource).
  exists dir, name.
  pose proof (clean_path_source _ _ _ Hsource Htrail) as Hclean.
  pose proof (interfaceFilePath_source _ _ _ Hsource
                (huff_only_trailing_extension _ Htrail)) as Hread.
  split; [exact Hsource|]. split; [exact Hclean|]. split; [exact Hread|]. split.
  - rewrite <- Hclean. apply clean_log.
  - unfold HuffDeployer.getContractAbi. rewrite getContractAbi_log, <- Hread.
    rewrite in_app_iff. right. now left.
Qed.

(** C6, the behaviour of the code.  When the [huffc --version] child
    process reports an error, [deploy] does not end in a rejection: the
    HardhatPluginError with the "Huff compiler not found" message is thrown
    inside the callback of [exec], so the promise stays pending and the
    exception is uncaught.  Nothing is scanned, read, created or deleted by
    the call: the version check is its only event, and the files are those
    the child process left. *)
Theorem deploy_compiler_unavailable
    (targetContract : string) (signer : option Signer)
    (constructorArgs : option (list any))
    (w : World) (err : string) (files' : gmap string string) :
  child_process_exec "huffc --version" (fs w) = (inl err, files') ->
  helpers.deploy targetContract signer constructorArgs w
  = (Uncaught
       (HardhatPluginError "huff-deployer"
          "Huff compiler not found. Please install it from https://github.com/huff-language/huff-rs"),
     mkWorld _ files' (chain w) (log w ++ [EvExec "huffc --version"])).
Proof.
  intros Hexec.
  unfold helpers.deploy, helpers.verifyHuffCompiler, bind, exec.
  now rewrite Hexec.
Qed.

(** C1, as amended.  When the compiler check passes and every scanned
    path contains [.huff] only as its trailing extension, then for every
    requested name that no scanned file's stem (its basename stripped of
    the [.huff] extension) equals case-insensitively, [deploy] rejects with
    the HardhatPluginError "Contract <name> not found.", and the compiler
    check and the scan are its only events: no bytecode or interface
    subprocess runs. *)
Theorem deploy_contract_not_found
    (targetContract : string) (signer : option Signer)
    (constructorArgs : option (list any))
    (w : World) (stdout : string) (files' : gmap string string) :
  child_process_exec "huffc --version" (fs w) = (inr stdout, files') ->
  includes stdout "0.0." = false ->
  Forall Spec.extension_only_trailing (glob_sync "contracts/**/*.huff" files') ->
  (forall filePath,
     In filePath (glob_sync "contracts/**/*.huff" files') ->
     ~ Spec.same_name targetContract (Spec.stem filePath)) ->
  helpers.deploy targetContract signer constructorArgs w
  = (Rejected
       (HardhatPluginError "HuffDeployer"
          ("Contract " ++ targetContract ++ " not found.")),
     mkWorld _ files' (chain w)
       (log w ++ [EvExec "huffc --version"; EvGlob "contracts/**/*.huff"])).
Proof.
  intros Hexec Hversion Htrail Hnone.
  rewrite (deploy_each_matching _ _ _ _ _ _ Hexec Hversion).
  rewrite filter_matches by assumption.
  replace (Spec.matching targetContract (glob_sync "contracts/**/*.huff" files'))
    with (@nil string); [reflexivity|].
  symmetry. unfold Spec.matching.
  induction (glob_sync "contracts/**/*.huff" files') as [|filePath rest IH];
    [reflexivity|].
  cbn [List.filter].
  destruct (String.eqb_spec (toLowerCase targetContract)
              (toLowerCase (Spec.stem filePath))) as [Heq|_].
  - exfalso. apply (Hnone filePath); [now left | exact Heq].
  - apply IH.
    + now inversion Htrail.
    + intros other Hin. apply Hnone. now right.
Qed.

Lemma matching_single
    (targetContract : string) (before after : list string) (filePath : string) :
  Spec.same_name targetContract (Spec.stem filePath) ->
  (forall other, In other (before ++ after) ->
                 ~ Spec.same_name targetContract (Spec.stem other)) ->
  Spec.matching targetContract (before ++ filePath :: after) = [filePath].
Proof.
  intros Hsame Hothers. unfold Spec.matching.
  assert (Hnone : forall files,
    (forall other, In other files ->
                   ~ Spec.same_name targetContract (Spec.stem other)) ->
    List.filter (fun filePath =>
      String.eqb (toLowerCase targetContract) (toLowerCase (Spec.stem filePath)))
      files = []).
  { induction files as [|other rest IH]; intros Hrest; [reflexivity|].
    cbn [List.filter].
    destruct (String.eqb_spec (toLowerCase targetContract)
                (toLowerCase (Spec.stem other))) as [Heq|_].
    - exfalso. apply (Hrest other); [now left | exact Heq].
    - apply IH. intros o Hin. apply Hrest. now right. }
  rewrite List.filter_app. cbn [List.filter].
  rewrite (proj2 (String.eqb_eq _ _) Hsame).
  rewrite !Hnone; [reflexivity | |];
    intros other Hin; apply Hothers; rewrite in_app_iff; tauto.
Qed.

(** C2, as amended.  When the compiler check passes, every scanned path
    contains [.huff] only as its trailing extension, and exactly one scanned
    file has a stem equal to the contract name up to case, then for every
    casing [requested] of that name the whole call is the per-file sequence
    (compile, generate the interface, scrape, build the factory, deploy) on
    exactly that file, run in the world the scan left; its result is the
    result of the call. *)
Theorem deploy_single_match
    (targetContract requested : string) (signer : option Signer)
    (constructorArgs : option (list any))
    (w : World) (stdout : string) (files' : gmap string string)
    (before after : list string) (filePath : string) :
  child_process_exec "huffc --version" (fs w) = (inr stdout, files') ->
  includes stdout "0.0." = false ->
  glob_sync "contracts/**/*.huff" files' = (before ++ filePath :: after)%list ->
  Forall Spec.extension_only_trailing (before ++ filePath :: after) ->
  Spec.same_name targetContract (Spec.stem filePath) ->
  (forall other, In other (before ++ after) ->
                 ~ Spec.same_name targetContract (Spec.stem other)) ->
  Spec.same_name requested targetContract ->
  helpers.deploy requested signer constructorArgs w
  = helpers.deploy_file requested signer constructorArgs filePath
      (Spec.after_scan w files').
Proof.
  intros Hexec Hversion Hfound Htrail Hsame Hothers Hcase.
  rewrite (deploy_each_matching _ _ _ _ _ _ Hexec Hversion), Hfound.
  rewrite filter_matches by assumption.
  rewrite matching_single.
  - cbn [Spec.each_in_order]. unfold bind, ret.
    now destruct (helpers.deploy_file _ _ _ _ _) as [[c|e|e] w1].
  - unfold Spec.same_name in *. congruence.
  - intros other Hin Hother. apply (Hothers other Hin).
    unfold Spec.same_name in *. congruence.
Qed.

(** C7, as amended.  When the compiler check passes and every scanned
    path contains [.huff] only as its trailing extension, let the files
    whose stem equals the requested name up to case be [earlier] followed by
    [last], in discovery order.  Then [deploy] runs the per-file sequence on
    each of [earlier] in order and then on [last], and the result of the
    call is the result of the sequence on [last]: last write wins.  A call
    that returns a handle has logged exactly one full sequence per matching
    file, in discovery order, after the check and the scan. *)
Theorem deploy_last_match_wins
    (targetContract : string) (signer : option Signer)
    (constructorArgs : option (list any))
    (w : World) (stdout : string) (files' : gmap string string)
    (earlier : list string) (last : string) :
  child_process_exec "huffc --version" (fs w) = (inr stdout, files') ->
  includes stdout "0.0." = false ->
  Forall Spec.extension_only_trailing (glob_sync "contracts/**/*.huff" files') ->
  Spec.matching targetContract (glob_sync "contracts/**/*.huff" files')
  = (earlier ++ [last])%list ->
  helpers.deploy targetContract signer constructorArgs w
  = bind (Spec.each_in_order targetContract signer constructorArgs earlier None)
      (fun _ => helpers.deploy_file targetContract signer constructorArgs last)
      (Spec.after_scan w files') /\
  forall contract w',
    helpers.deploy targetContract signer constructorArgs w = (Fulfilled contract, w') ->
    exists segments,
      Forall2 (Spec.sequence_of constructorArgs) (earlier ++ [last]) segments /\
      log w' = (log (Spec.after_scan w files') ++ List.concat segments)%list.
Proof.
  intros Hexec Hversion Htrail Hmatching.
  assert (Hdeploy :
    helpers.deploy targetContract signer constructorArgs w
    = bind (Spec.each_in_order targetContract signer constructorArgs
              (earlier ++ [last]) None)
        (fun contract =>
           match contract with
           | None =>
               throw (HardhatPluginError "HuffDeployer"
                        ("Contract " ++ targetContract ++ " not found."))
           | Some contract => ret contract
           end)
        (Spec.after_scan w files')).
  { rewrite (deploy_each_matching _ _ _ _ _ _ Hexec Hversion).
    now rewrite filter_matches, Hmatching. }
  split.
  - rewrite Hdeploy. unfold bind at 1. rewrite each_in_order_app.
    unfold bind. destruct (Spec.each_in_order _ _ _ earlier None _) as [[kept|e|e] w1];
      [|reflexivity..].
    cbn [Spec.each_in_order]. unfold bind, ret.
    now destruct (helpers.deploy_file _ _ _ _ _) as [[c|e|e] w2].
  - intros contract w' Hrun. rewrite Hdeploy in Hrun.
    apply bind_fulfilled in Hrun as (kept & w1 & Hloop & Hfinal).
    destruct kept as [c|]; [|discriminate]. injection Hfinal as _ <-.
    exact (each_in_order_fulfilled _ _ _ _ _ _ _ _ Hloop).
Qed.

(** C9.  For every successful call of the method [HuffDeployer.deploy],
    the generated interface file is never deleted: the call adds no unlink
    event, the files at return are the initial files changed by the child
    processes alone, and they are exactly the files an interface generation
    of the call left behind. *)
Theorem method_deploy_keeps_interface_file
    (targetContract : string) (constructorArgs : option (list any))
    (signer : option Signer) (w w' : World) (contract : Contract) :
  HuffDeployer.method_deploy targetContract constructorArgs signer w
  = (Fulfilled contract, w') ->
  exists events before filePath sequence,
    log w' = (log w ++ events)%list /\
    (forall path, ~ In (EvUnlink path) events) /\
    fs w' = Spec.files_after events (fs w) /\
    events = (before ++ sequence)%list /\
    Spec.sequence_of constructorArgs filePath sequence /\
    fs w'
    = snd (child_process_exec (helpers.interface_command filePath)
             (snd (child_process_exec
                     (helpers.bytecode_command filePath constructorArgs)
                     (Spec.files_after before (fs w))))).
Proof.
  intros Hrun.
  destruct (deletes_nothing_method_deploy _ _ _ _ _ _ Hrun)
    as (events & Hlog & Hquiet & Hfs).
  unfold HuffDeployer.method_deploy in Hrun.
  apply bind_fulfilled in Hrun as (s & w1 & Hsigner & Hrun).
  assert (Hlog1 : exists events1, log w1 = (log w ++ events1)%list).
  { destruct signer as [given|].
    - injection Hsigner as _ <-. exists []. now rewrite app_nil_r.
    - apply bind_fulfilled in Hsigner as (signers & w0 & Hsigners & Hret).
      injection Hret as _ <-. exists [EvGetSigners].
      unfold hre_getSigners in Hsigners.
      destruct (getSigners (chain w)); [discriminate|]. now injection Hsigners as _ <-. }
  destruct Hlog1 as [events1 Hlog1].
  apply deploy_fulfilled_last in Hrun as (last & w0 & events2 & Hlog2 & Hlast).
  apply deploy_file_fulfilled in Hlast as [(sequence & Hsequence & Hlog3) _].
  assert (Hevents : events = ((events1 ++ events2) ++ sequence)%list).
  { apply (app_inv_head (log w)).
    now rewrite <- Hlog, Hlog3, Hlog2, Hlog1, <- !app_assoc. }
  exists events, (events1 ++ events2)%list, last, sequence.
  split; [assumption|]. split.
  { intros path Hin. rewrite forallb_forall in Hquiet. now specialize (Hquiet _ Hin). }
  split; [assumption|]. split; [assumption|]. split; [assumption|].
  rewrite Hfs, Hevents, files_after_app.
  destruct Hsequence as (abi & bytecode & ->). reflexivity.
Qed.

End Claims.

(* ===================================================================== *)
(** * The claims on concrete inputs *)
(* ===================================================================== *)

(** ** The functions of the plugin on small inputs *)

Example contractName_plain : helpers.contractName "contracts/dir/Token.huff" = "Token".
Proof. reflexivity. Qed.

Example contractName_directory_with_extension :
  helpers.contractName "contracts/x.huff/Token.huff" = "".
Proof. reflexivity. Qed.

Example contractName_double_extension :
  helpers.contractName "contracts/Token.huff.huff" = "Token" /\
  Spec.stem "contracts/Token.huff.huff" = "Token.huff".
Proof. split; reflexivity. Qed.

Example scrape_interface :
  helpers.scrape Demo.interface_text
  = ["function balanceOf(address) external view returns (uint256)";
     "function mint(address, uint256) external"].
Proof. reflexivity. Qed.

(** Without a terminator the index -1 of [indexOf] cuts the last code unit
    off; with the first terminator before the keyword nothing is left. *)
Example scrape_without_terminator : helpers.scrape "function f()" = ["function f("].
Proof. reflexivity. Qed.

Example scrape_terminator_first : helpers.scrape "a; function f();" = [""].
Proof. reflexivity. Qed.

Example clean_path_plain :
  HuffDeployer.clean_path "contracts/dir/Token.huff" = "contracts/dir/IToken.sol".
Proof. reflexivity. Qed.

Example clean_path_huff_in_directory :
  HuffDeployer.clean_path "contracts/huffs/Token.huff" = "contracts/sols/IToken.huff".
Proof. reflexivity. Qed.

(** Scanning decides the occurrence predicates on concrete strings. *)
Lemma extension_only_trailing_scan (stem : string) :
  find_first ".huff" (stem ++ ".huff") = Some (String.length stem) ->
  Spec.extension_only_trailing (stem ++ ".huff").
Proof. intros Hscan. exists stem. split; [reflexivity | now apply find_first_sound]. Qed.

Lemma huff_only_trailing_scan (stem : string) :
  find_first "huff" (stem ++ ".huff") = Some (S (String.length stem)) ->
  Spec.huff_only_trailing (stem ++ ".huff").
Proof. intros Hscan. exists stem. split; [reflexivity | now apply find_first_sound]. Qed.

Lemma first_terminator_after_keyword_scan (line : string) (i j : nat) :
  find_first "function" line = Some i ->
  find_first ";" line = Some j ->
  (i < j)%nat ->
  Spec.first_terminator_after_keyword line.
Proof.
  intros Hi Hj Hlt. exists i, j.
  split; [now apply find_first_sound|]. split; [now apply find_first_sound | assumption].
Qed.

Lemma run_fulfilled `{Runtime} {A : Type} (m : M A) (w : World) (a : A) :
  fst (m w) = Fulfilled a -> m w = (Fulfilled a, snd (m w)).
Proof. intros Hfst. rewrite <- Hfst. now destruct (m w). Qed.

Lemma deploy_contract_not_found_witness :
  let files := ["contracts/Token.huff"] in
  let w := Demo.world true files in
  @child_process_exec (Demo.runtime true files) "huffc --version" (fs w)
  = (inr "huffc 0.3.2", fs w) /\
  includes "huffc 0.3.2" "0.0." = false /\
  Forall Spec.extension_only_trailing files /\
  (forall filePath, In filePath files ->
                    ~ @Spec.same_name (Demo.runtime true files) "Vault" (Spec.stem filePath)) /\
  @helpers.deploy (Demo.runtime true files) "Vault" None None w
  = (Rejected (HardhatPluginError "HuffDeployer" "Contract Vault not found."),
     @mkWorld (Demo.runtime true files) (fs w) O
       [EvExec "huffc --version"; EvGlob "contracts/**/*.huff"]).
Proof.
  intros files w.
  assert (Htrail : Forall Spec.extension_only_trailing files).
  { repeat constructor. now apply (extension_only_trailing_scan "contracts/Token"). }
  assert (Hnone : forall filePath, In filePath files ->
            ~ @Spec.same_name (Demo.runtime true files) "Vault" (Spec.stem filePath)).
  { intros filePath [<-|[]]. unfold Spec.same_name. cbn. discriminate. }
  split; [reflexivity|]. split; [reflexivity|]. split; [exact Htrail|].
  split; [exact Hnone|].
  exact (@deploy_contract_not_found (Demo.runtime true files) "Vault" None None
           w "huffc 0.3.2" (fs w) eq_refl eq_refl Htrail Hnone).
Defined.

Lemma deploy_contract_not_found_counterexample :
  let files := ["contracts/Token.huff.huff"] in
  let w := Demo.world true files in
  (forall filePath,
     In filePath (@glob_sync (Demo.runtime true files) "contracts/**/*.huff" (fs w)) ->
     ~ @Spec.same_name (Demo.runtime true files) "Token" (Spec.stem filePath)) /\
  fst (@helpers.deploy (Demo.runtime true files) "Token" None None w)
  = Rejected
      (Foreign "Error: ENOENT: no such file or directory, open 'contracts/IToken.sol.huff'") /\
  log (snd (@helpers.deploy (Demo.runtime true files) "Token" None None w))
  = [EvExec "huffc --version"; EvGlob "contracts/**/*.huff";
     EvExec "huffc contracts/Token.huff.huff --bytecode";
     EvExec "huffc contracts/Token.huff.huff --interface";
     EvReadFile "contracts/IToken.sol.huff"].
Proof.
  intros files w. split; [|split].
  - intros filePath [<-|[]]. unfold Spec.same_name. cbn. discriminate.
  - vm_compute. reflexivity.
  - vm_compute. reflexivity.
Qed.

Lemma deploy_single_match_witness :
  let files := ["contracts/a.huff"; "contracts/token.huff"; "contracts/b.huff"] in
  let w := Demo.world true files in
  @child_process_exec (Demo.runtime true files) "huffc --version" (fs w)
  = (inr "huffc 0.3.2", fs w) /\
  includes "huffc 0.3.2" "0.0." = false /\
  Forall Spec.extension_only_trailing files /\
  @Spec.same_name (Demo.runtime true files) "token" (Spec.stem "contracts/token.huff") /\
  (forall other, In other ["contracts/a.huff"; "contracts/b.huff"] ->
                 ~ @Spec.same_name (Demo.runtime true files) "token" (Spec.stem other)) /\
  @Spec.same_name (Demo.runtime true files) "Token" "token" /\
  @helpers.deploy (Demo.runtime true files) "Token" None None w
  = @helpers.deploy_file (Demo.runtime true files) "Token" None None
      "contracts/token.huff" (Spec.after_scan w (fs w)).
Proof.
  intros files w.
  assert (Htrail : Forall Spec.extension_only_trailing files).
  { repeat constructor.
    - now apply (extension_only_trailing_scan "contracts/a").
    - now apply (extension_only_trailing_scan "contracts/token").
    - now apply (extension_only_trailing_scan "contracts/b"). }
  assert (Hothers : forall other, In other ["contracts/a.huff"; "contracts/b.huff"] ->
            ~ @Spec.same_name (Demo.runtime true files) "token" (Spec.stem other)).
  { intros other [<-|[<-|[]]]; unfold Spec.same_name; cbn; discriminate. }
  split; [reflexivity|]. split; [reflexivity|]. split; [exact Htrail|].
  split; [reflexivity|]. split; [exact Hothers|]. split; [reflexivity|].
  exact (@deploy_single_match (Demo.runtime true files) "token" "Token" None None
           w "huffc 0.3.2" (fs w) ["contracts/a.huff"] ["contracts/b.huff"]
           "contracts/token.huff" eq_refl eq_refl eq_refl Htrail eq_refl Hothers eq_refl).
Defined.

Lemma deploy_single_match_counterexample :
  let files := ["contracts/x.huff/Token.huff"] in
  let w := Demo.world true files in
  @glob_sync (Demo.runtime true files) "contracts/**/*.huff" (fs w)
  = ["contracts/x.huff/Token.huff"] /\
  @Spec.same_name (Demo.runtime true files) "Token"
    (Spec.stem "contracts/x.huff/Token.huff") /\
  @helpers.deploy (Demo.runtime true files) "Token" None None w
  = (Rejected (HardhatPluginError "HuffDeployer" "Contract Token not found."),
     Spec.after_scan w (fs w)).
Proof. intros files w. repeat split. Qed.

Lemma getContractAbi_fragments_witness :
  let R := Demo.runtime true [] in
  let w := @mkWorld R {[ "contracts/IToken.sol" := Demo.interface_text ]} O [] in
  fs w !! helpers.interfaceFilePath "contracts/Token.huff" = Some Demo.interface_text /\
  List.length (Spec.function_lines Demo.interface_text) = 2%nat /\
  (forall line, In line (Spec.function_lines Demo.interface_text) ->
                Spec.first_terminator_after_keyword line) /\
  exists abi,
    @helpers.getContractAbi R "contracts/Token.huff" w
    = (Fulfilled abi, emit (EvReadFile (helpers.interfaceFilePath "contracts/Token.huff")) w) /\
    List.length abi = 2%nat /\
    Forall2 Spec.fragment_of (Spec.function_lines Demo.interface_text) abi.
Proof.
  intros R w.
  assert (Hfile : fs w !! helpers.interfaceFilePath "contracts/Token.huff"
                  = Some Demo.interface_text) by (vm_compute; reflexivity).
  assert (Hlines : forall line, In line (Spec.function_lines Demo.interface_text) ->
                                Spec.first_terminator_after_keyword line).
  { intros line [<-|[<-|[]]];
      (eapply first_terminator_after_keyword_scan;
       [reflexivity | reflexivity | cbn; lia]). }
  split; [exact Hfile|]. split; [reflexivity|]. split; [exact Hlines|].
  exact (@getContractAbi_fragments R "contracts/Token.huff" Demo.interface_text 2 w
           Hfile eq_refl Hlines).
Defined.

(** A line with a terminator before the keyword and one after it: the
    keyword is followed by a terminator, and the span from the keyword to
    that terminator is the declaration, yet the code cuts at the first
    terminator of the whole line and pushes the empty string. *)
Lemma getContractAbi_fragments_counterexample :
  let R := Demo.runtime true [] in
  let text := "a; function f();" in
  let w := @mkWorld R {[ "contracts/IToken.sol" := text ]} O [] in
  fs w !! helpers.interfaceFilePath "contracts/Token.huff" = Some text /\
  Spec.function_lines text = [text] /\
  (forall line, In line (Spec.function_lines text) ->
                Spec.terminated_after_keyword line) /\
  Spec.fragment_of text "function f()" /\
  fst (@helpers.getContractAbi R "contracts/Token.huff" w) = Fulfilled [""] /\
  ~ Spec.fragment_of text "".
Proof.
  intros R text w.
  split; [vm_compute; reflexivity|]. split; [reflexivity|]. split; [|split; [|split]].
  - intros line [<-|[]].
    exists 3%nat, 15%nat. split; [now apply find_first_sound|].
    split; [|lia]. exists "a; function f()", "". now split.
  - exists "a; ", "". split; [reflexivity|].
    split; [now apply find_first_sound|]. split; reflexivity.
  - vm_compute. reflexivity.
  - intros (pre & post & _ & _ & Hprefix & _). discriminate Hprefix.
Qed.

Lemma getContractAbi_reads_interface_file_witness :
  let R := Demo.runtime true [] in
  let w := Demo.world true [] in
  Spec.source_path "contracts/dir" "Token" "contracts/dir/Token.huff" /\
  Spec.extension_only_trailing "contracts/dir/Token.huff" /\
  helpers.interfaceFilePath "contracts/dir/Token.huff" = "contracts/dir/IToken.sol" /\
  log (snd (@helpers.getContractAbi R "contracts/dir/Token.huff" w))
  = [EvReadFile "contracts/dir/IToken.sol"].
Proof.
  intros R w.
  assert (Hsource : Spec.source_path "contracts/dir" "Token" "contracts/dir/Token.huff")
    by (split; reflexivity).
  assert (Htrail : Spec.extension_only_trailing "contracts/dir/Token.huff")
    by (now apply (extension_only_trailing_scan "contracts/dir/Token")).
  split; [assumption|]. split; [assumption|].
  exact (@getContractAbi_reads_interface_file R "contracts/dir" "Token"
           "contracts/dir/Token.huff" w Hsource Htrail).
Defined.

Lemma getContractAbi_reads_interface_file_counterexample :
  Spec.source_path "contracts/x.huff" "Token" "contracts/x.huff/Token.huff" /\
  Spec.interface_path "contracts/x.huff" "Token" = "contracts/x.huff/IToken.sol" /\
  helpers.interfaceFilePath "contracts/x.huff/Token.huff" = "contracts/x.sol/IToken.huff" /\
  log (snd (@helpers.getContractAbi (Demo.runtime true [])
              "contracts/x.huff/Token.huff" (Demo.world true [])))
  = [EvReadFile "contracts/x.sol/IToken.huff"].
Proof. repeat split. Qed.

Lemma deploy_compiler_unavailable_witness :
  let R := Demo.runtime false ["contracts/Token.huff"] in
  let w := Demo.world false ["contracts/Token.huff"] in
  @child_process_exec R "huffc --version" (fs w)
  = (inl "Error: Command failed: huffc: not found", fs w) /\
  @helpers.deploy R "Token" None None w
  = (Uncaught
       (HardhatPluginError "huff-deployer"
          "Huff compiler not found. Please install it from https://github.com/huff-language/huff-rs"),
     @mkWorld R (fs w) O [EvExec "huffc --version"]).
Proof.
  intros R w. split; [reflexivity|].
  exact (@deploy_compiler_unavailable R "Token" None None w
           "Error: Command failed: huffc: not found" (fs w) eq_refl).
Defined.

Lemma deploy_last_match_wins_witness :
  let files := ["contracts/a.huff"; "contracts/Token.huff"; "contracts/sub/TOKEN.huff"] in
  let R := Demo.runtime true files in
  let w := Demo.world true files in
  @child_process_exec R "huffc --version" (fs w) = (inr "huffc 0.3.2", fs w) /\
  includes "huffc 0.3.2" "0.0." = false /\
  Forall Spec.extension_only_trailing files /\
  @Spec.matching R "token" files = ["contracts/Token.huff"; "contracts/sub/TOKEN.huff"] /\
  @helpers.deploy R "token" None None w
  = bind (@Spec.each_in_order R "token" None None ["contracts/Token.huff"] None)
      (fun _ => @helpers.deploy_file R "token" None None "contracts/sub/TOKEN.huff")
      (Spec.after_scan w (fs w)) /\
  forall contract w',
    @helpers.deploy R "token" None None w = (Fulfilled contract, w') ->
    exists segments,
      Forall2 (@Spec.sequence_of R None)
        ["contracts/Token.huff"; "contracts/sub/TOKEN.huff"] segments /\
      log w' = (log (Spec.after_scan w (fs w)) ++ List.concat segments)%list.
Proof.
  intros files R w.
  assert (Htrail : Forall Spec.extension_only_trailing files).
  { repeat constructor.
    - now apply (extension_only_trailing_scan "contracts/a").
    - now apply (extension_only_trailing_scan "contracts/Token").
    - now apply (extension_only_trailing_scan "contracts/sub/TOKEN"). }
  split; [reflexivity|]. split; [reflexivity|]. split; [exact Htrail|].
  split; [reflexivity|].
  exact (@deploy_last_match_wins R "token" None None w "huffc 0.3.2" (fs w)
           ["contracts/Token.huff"] "contracts/sub/TOKEN.huff"
           eq_refl eq_refl Htrail eq_refl).
Defined.

Lemma deploy_last_match_wins_counterexample :
  let files := ["contracts/Token.huff"; "contracts/x.huff/token.huff"] in
  let R := Demo.runtime true files in
  let w := Demo.world true files in
  @Spec.matching R "token" (@glob_sync R "contracts/**/*.huff" (fs w))
  = ["contracts/Token.huff"; "contracts/x.huff/token.huff"] /\
  fst (@helpers.deploy R "token" None None w) = Fulfilled (O, "0x60008060093d393df3") /\
  log (snd (@helpers.deploy R "token" None None w))
  = [EvExec "huffc --version"; EvGlob "contracts/**/*.huff";
     EvExec "huffc contracts/Token.huff --bytecode";
     EvExec "huffc contracts/Token.huff --interface";
     EvReadFile "contracts/IToken.sol";
     EvGetContractFactory
       ["function balanceOf(address) external view returns (uint256)";
        "function mint(address, uint256) external"]
       "0x60008060093d393df3";
     EvFactoryDeploy].
Proof.
  intros files R w. split; [reflexivity|]. split; vm_compute; reflexivity.
Qed.

Lemma method_deploy_keeps_interface_file_witness :
  let files := ["contracts/a.huff"; "contracts/Token.huff"; "contracts/sub/TOKEN.huff"] in
  let R := Demo.runtime true files in
  let w := Demo.world true files in
  let w' := snd (@HuffDeployer.method_deploy R "token" None None w) in
  @HuffDeployer.method_deploy R "token" None None w
  = (Fulfilled (1%nat, "0x60008060093d393df3"), w') /\
  exists events before filePath sequence,
    log w' = (log w ++ events)%list /\
    (forall path, ~ In (EvUnlink path) events) /\
    fs w' = Spec.files_after events (fs w) /\
    events = (before ++ sequence)%list /\
    @Spec.sequence_of R None filePath sequence /\
    fs w'
    = snd (@child_process_exec R (helpers.interface_command filePath)
             (snd (@child_process_exec R
                     (@helpers.bytecode_command R filePath None)
                     (Spec.files_after before (fs w))))).
Proof.
  intros files R w w'.
  assert (Hfst : fst (@HuffDeployer.method_deploy R "token" None None w)
                 = Fulfilled (1%nat, "0x60008060093d393df3"))
    by (vm_compute; reflexivity).
  pose proof (@run_fulfilled R _ (@HuffDeployer.method_deploy R "token" None None)
                w (1%nat, "0x60008060093d393df3") Hfst) as Hrun.
  split; [exact Hrun|].
  exact (@method_deploy_keeps_interface_file R "token" None None w w'
           (1%nat, "0x60008060093d393df3") Hrun).
Defined.

(** After that call both interface files are there. *)
Lemma method_deploy_interface_files_remain :
  let files := ["contracts/a.huff"; "contracts/Token.huff"; "contracts/sub/TOKEN.huff"] in
  let R := Demo.runtime true files in
  let w' := snd (@HuffDeployer.method_deploy R "token" None None (Demo.world true files)) in
  fs w' !! "contracts/IToken.sol" = Some Demo.interface_text /\
  fs w' !! "contracts/sub/ITOKEN.sol" = Some Demo.interface_text.
Proof. split; vm_compute; reflexivity. Qed.

Lemma bytecode_command_input_flag_witness :
  let R := Demo.runtime true [] in
  (["100"; "0xabc"] <> [] /\
   Forall (@Spec.single_word R) ["100"; "0xabc"] /\
   ~ In "-i" (Spec.words "contracts/Token.huff") /\
   ~ In "-i" (Spec.words
                (@Spec.compiler_flags R
                   (Some [HuffDeployer.mkCompilerArg R 1%Z 2%Z true])))) /\
  @Spec.runs_command R
    (helpers.getContractBytecode "contracts/Token.huff" (Some ["100"; "0xabc"]))
    "huffc contracts/Token.huff -i 100 0xabc --bytecode" /\
  Spec.words "huffc contracts/Token.huff -i 100 0xabc --bytecode"
  = ["huffc"; "contracts/Token.huff"; "-i"; "100"; "0xabc"; "--bytecode"] /\
  @Spec.runs_command R (helpers.getContractBytecode "contracts/Token.huff" None)
    "huffc contracts/Token.huff --bytecode" /\
  ~ In "-i" (Spec.words "huffc contracts/Token.huff --bytecode") /\
  @Spec.runs_command R
    (HuffDeployer.getContractBytecode "contracts/Token.huff" None
       (Some [HuffDeployer.mkCompilerArg R 1%Z 2%Z true]))
    "huffc contracts/Token.huff --bytecode  --1 2" /\
  ~ In "-i" (Spec.words "huffc contracts/Token.huff --bytecode  --1 2").
Proof.
  intros R.
  assert (Hne : ["100"; "0xabc"] <> ([] : list (@any R))) by discriminate.
  assert (Hall : Forall (@Spec.single_word R) ["100"; "0xabc"])
    by (repeat constructor).
  assert (Hpath : ~ In "-i" (Spec.words "contracts/Token.huff"))
    by (cbn; intuition discriminate).
  assert (Hflags : ~ In "-i" (Spec.words
                     (@Spec.compiler_flags R
                        (Some [HuffDeployer.mkCompilerArg R 1%Z 2%Z true]))))
    by (vm_compute; intuition discriminate).
  destruct (@bytecode_command_input_flag R "contracts/Token.huff")
    as (Hargs & _ & (Hnone & Habsent) & Hsecond).
  destruct (Hargs ["100"; "0xabc"]) as (Hruns & Hwords).
  destruct (Hsecond (Some [HuffDeployer.mkCompilerArg R 1%Z 2%Z true]))
    as (Hruns2 & Habsent2).
  split; [now repeat split|]. split; [exact Hruns|].
  split; [exact (Hwords Hne Hall)|]. split; [exact Hnone|].
  split; [exact (Habsent Hpath)|]. split; [exact Hruns2|].
  exact (Habsent2 Hpath Hflags).
Defined.

(** A path the scan can return, with the word -i in a directory or file
    name: the command without constructor arguments has the word -i. *)
Lemma bytecode_command_input_flag_counterexample :
  let filePath := "contracts/a -i b.huff" in
  let R := Demo.runtime true [filePath] in
  let w := Demo.world true [filePath] in
  Spec.scanned_path filePath /\
  @glob_sync R "contracts/**/*.huff" (fs w) = [filePath] /\
  log (snd (@helpers.getContractBytecode R filePath None w))
  = [EvExec "huffc contracts/a -i b.huff --bytecode"] /\
  log (snd (@HuffDeployer.getContractBytecode R filePath None None w))
  = [EvExec "huffc contracts/a -i b.huff --bytecode"] /\
  Spec.words "huffc contracts/a -i b.huff --bytecode"
  = ["huffc"; "contracts/a"; "-i"; "b.huff"; "--bytecode"] /\
  In "-i" (Spec.words "huffc contracts/a -i b.huff --bytecode").
Proof.
  intros filePath R w. split; [now exists "a -i b"|]. split; [reflexivity|].
  split; [reflexivity|]. split; [reflexivity|]. split; [reflexivity|].
  cbn. tauto.
Qed.

(** The flags of a command, as the second [getContractBytecode] renders
    them; the two spaces after [--bytecode] are the initial space of
    [argString] and the space before the first flag. *)
Lemma bytecode_command_flags_example :
  let R := Demo.runtime true [] in
  @HuffDeployer.bytecode_command R "contracts/Token.huff" (Some ["100"])
    (Some [HuffDeployer.mkCompilerArg R 1%Z 2%Z true;
           HuffDeployer.mkCompilerArg R 3%Z 4%Z false])
  = "huffc contracts/Token.huff -i 100 --bytecode  --1 2 -3 4".
Proof. reflexivity. Qed.

Lemma clean_unlinks_interface_file_witness :
  let R := Demo.runtime true [] in
  let w := Demo.world true [] in
  Spec.scanned_path "contracts/dir/Token.huff" /\
  Spec.huff_only_trailing "contracts/dir/Token.huff" /\
  exists dir name,
    Spec.source_path dir name "contracts/dir/Token.huff" /\
    HuffDeployer.clean_path "contracts/dir/Token.huff" = Spec.interface_path dir name /\
    HuffDeployer.interfaceFilePath "contracts/dir/Token.huff" = Spec.interface_path dir name /\
    In (EvUnlink (Spec.interface_path dir name))
       (log (snd (@HuffDeployer.clean R "contracts/dir/Token.huff" w))) /\
    In (EvReadFile (Spec.interface_path dir name))
       (log (snd (@HuffDeployer.getContractAbi R "contracts/dir/Token.huff" w))).
Proof.
  intros R w.
  assert (Hscanned : Spec.scanned_path "contracts/dir/Token.huff")
    by (now exists "dir/Token").
  assert (Htrail : Spec.huff_only_trailing "contracts/dir/Token.huff")
    by (now apply (huff_only_trailing_scan "contracts/dir/Token")).
  split; [exact Hscanned|]. split; [exact Htrail|].
  exact (@clean_unlinks_interface_file R "contracts/dir/Token.huff" w w Hscanned Htrail).
Defined.

(** Without a directory the two paths part: [clean] still puts the I in
    front, the regular expression of [getContractAbi] finds no slash. *)
Lemma clean_path_without_directory :
  Spec.huff_only_trailing "Token.huff" /\
  HuffDeployer.clean_path "Token.huff" = "IToken.sol" /\
  HuffDeployer.interfaceFilePath "Token.huff" = "Token.sol".
Proof.
  split; [now apply (huff_only_trailing_scan "Token")|]. split; reflexivity.
Qed.

(* ===================================================================== *)
(** * Further properties of the code *)
(* ===================================================================== *)

(** ** The failures of a call, step by step *)

Section Failures.
Context `{Runtime}.
Variable targetContract : string.
Variable signer : option Signer.
Variable constructorArgs : option (list any).

(** The call from the first file [deploy] matches on: its sequence, then
    the remaining matches, then the test of [contract]. *)
Lemma deploy_first_match
    (w : World) (stdout : string) (files' : gmap string string)
    (filePath : string) (rest : list string) :
  child_process_exec "huffc --version" (fs w) = (inr stdout, files') ->
  includes stdout "0.0." = false ->
  List.filter (helpers.matches targetContract) (glob_sync "contracts/**/*.huff" files')
  = filePath :: rest ->
  forall e w',
    helpers.deploy_file targetContract signer constructorArgs filePath
      (Spec.after_scan w files') = (Rejected e, w') ->
    helpers.deploy targetContract signer constructorArgs w = (Rejected e, w').
Proof.
  intros Hexec Hversion Hfirst e w' Hfile.
  rewrite (deploy_each_matching _ _ _ _ _ _ Hexec Hversion), Hfirst.
  cbn [Spec.each_in_order]. unfold bind. now rewrite Hfile.
Qed.

(** X2.  When the compiler fails on the first matching file, [deploy]
    rejects with the error of the child process as it is; no interface is
    generated, nothing is read, ethers is not reached, and the later
    matching files are not compiled. *)
Theorem deploy_compile_error
    (w : World) (stdout : string) (files' files'' : gmap string string)
    (filePath : string) (rest : list string) (err : string) :
  child_process_exec "huffc --version" (fs w) = (inr stdout, files') ->
  includes stdout "0.0." = false ->
  List.filter (helpers.matches targetContract) (glob_sync "contracts/**/*.huff" files')
  = filePath :: rest ->
  child_process_exec (helpers.bytecode_command filePath constructorArgs) files'
  = (inl err, files'') ->
  helpers.deploy targetContract signer constructorArgs w
  = (Rejected (Foreign err),
     mkWorld _ files'' (chain w)
       (log w ++ [EvExec "huffc --version"; EvGlob "contracts/**/*.huff";
                  EvExec (helpers.bytecode_command filePath constructorArgs)])).
Proof.
  intros Hexec Hversion Hfirst Hcompile.
  apply (deploy_first_match _ _ _ _ _ Hexec Hversion Hfirst).
  unfold helpers.deploy_file, helpers.getContractBytecode, bind, exec, throw.
  cbn [Spec.after_scan fs chain log]. rewrite Hcompile.
  now rewrite <- app_assoc.
Qed.

(** X3.  When the interface generation fails on the first matching file,
    [deploy] rejects with the error of the child process as it is, after
    the bytecode was compiled; the interface file is not read. *)
Theorem deploy_interface_error
    (w : World) (stdout bytecode : string)
    (files' files1 files2 : gmap string string)
    (filePath : string) (rest : list string) (err : string) :
  child_process_exec "huffc --version" (fs w) = (inr stdout, files') ->
  includes stdout "0.0." = false ->
  List.filter (helpers.matches targetContract) (glob_sync "contracts/**/*.huff" files')
  = filePath :: rest ->
  child_process_exec (helpers.bytecode_command filePath constructorArgs) files'
  = (inr bytecode, files1) ->
  child_process_exec (helpers.interface_command filePath) files1
  = (inl err, files2) ->
  helpers.deploy targetContract signer constructorArgs w
  = (Rejected (Foreign err),
     mkWorld _ files2 (chain w)
       (log w ++ [EvExec "huffc --version"; EvGlob "contracts/**/*.huff";
                  EvExec (helpers.bytecode_command filePath constructorArgs);
                  EvExec (helpers.interface_command filePath)])).
Proof.
  intros Hexec Hversion Hfirst Hcompile Hinterface.
  apply (deploy_first_match _ _ _ _ _ Hexec Hversion Hfirst).
  unfold helpers.deploy_file, helpers.getContractBytecode,
    helpers.generateContractInterface, bind, exec, throw, ret.
  cbn [Spec.after_scan fs chain log]. rewrite Hcompile.
  cbn [fs chain log]. rewrite Hinterface.
  now rewrite <- !app_assoc.
Qed.

(** X4.  When the compiler succeeded but no file is at the path
    [getContractAbi] reads, [deploy] rejects with the ENOENT error of
    [readFileSync]; no factory is built and the chain is as before. *)
Theorem deploy_interface_file_missing
    (w : World) (stdout bytecode output : string)
    (files' files1 files2 : gmap string string)
    (filePath : string) (rest : list string) :
  child_process_exec "huffc --version" (fs w) = (inr stdout, files') ->
  includes stdout "0.0." = false ->
  List.filter (helpers.matches targetContract) (glob_sync "contracts/**/*.huff" files')
  = filePath :: rest ->
  child_process_exec (helpers.bytecode_command filePath constructorArgs) files'
  = (inr bytecode, files1) ->
  child_process_exec (helpers.interface_command filePath) files1
  = (inr output, files2) ->
  files2 !! helpers.interfaceFilePath filePath = None ->
  helpers.deploy targetContract signer constructorArgs w
  = (Rejected (Foreign (enoent "open" (helpers.interfaceFilePath filePath))),
     mkWorld _ files2 (chain w)
       (log w ++ [EvExec "huffc --version"; EvGlob "contracts/**/*.huff";
                  EvExec (helpers.bytecode_command filePath constructorArgs);
                  EvExec (helpers.interface_command filePath);
                  EvReadFile (helpers.interfaceFilePath filePath)])).
Proof.
  intros Hexec Hversion Hfirst Hcompile Hinterface Hmissing.
  apply (deploy_first_match _ _ _ _ _ Hexec Hversion Hfirst).
  unfold helpers.deploy_file, helpers.getContractBytecode,
    helpers.generateContractInterface, helpers.getContractAbi,
    bind, exec, throw, ret, readFileSync, emit.
  cbn [Spec.after_scan fs chain log]. rewrite Hcompile.
  cbn [fs chain log]. rewrite Hinterface.
  cbn [fs chain log]. rewrite Hmissing.
  cbn [fs chain log]. now rewrite <- !app_assoc.
Qed.

(** X5.  An error of [getContractFactory] is outside the try block:
    [deploy] rejects with it as it is, not wrapped, and nothing is
    deployed. *)
Theorem deploy_factory_error
    (w : World) (stdout bytecode output text : string)
    (files' files1 files2 : gmap string string)
    (filePath : string) (rest : list string) (reason : string) (chain' : Chain) :
  child_process_exec "huffc --version" (fs w) = (inr stdout, files') ->
  includes stdout "0.0." = false ->
  List.filter (helpers.matches targetContract) (glob_sync "contracts/**/*.huff" files')
  = filePath :: rest ->
  child_process_exec (helpers.bytecode_command filePath constructorArgs) files'
  = (inr bytecode, files1) ->
  child_process_exec (helpers.interface_command filePath) files1
  = (inr output, files2) ->
  files2 !! helpers.interfaceFilePath filePath = Some text ->
  getContractFactory (helpers.scrape text) bytecode signer (chain w)
  = (inl reason, chain') ->
  helpers.deploy targetContract signer constructorArgs w
  = (Rejected (Foreign reason),
     mkWorld _ files2 chain'
       (log w ++ [EvExec "huffc --version"; EvGlob "contracts/**/*.huff";
                  EvExec (helpers.bytecode_command filePath constructorArgs);
                  EvExec (helpers.interface_command filePath);
                  EvReadFile (helpers.interfaceFilePath filePath);
                  EvGetContractFactory (helpers.scrape text) bytecode])).
Proof.
  intros Hexec Hversion Hfirst Hcompile Hinterface Hfile Hfactory.
  apply (deploy_first_match _ _ _ _ _ Hexec Hversion Hfirst).
  unfold helpers.deploy_file, helpers.getContractBytecode,
    helpers.generateContractInterface, helpers.getContractAbi,
    hre_getContractFactory, bind, exec, throw, ret, readFileSync, emit.
  cbn [Spec.after_scan fs chain log]. rewrite Hcompile.
  cbn [fs chain log]. rewrite Hinterface.
  cbn [fs chain log]. rewrite Hfile.
  cbn [fs chain log]. rewrite Hfactory.
  cbn [fs chain log]. now rewrite <- !app_assoc.
Qed.

(** X6.  An error of [factory.deploy()] is caught and thrown again as an
    Error whose message names the requested contract: "Error deploying
    <name>: <the error>". *)
Theorem deploy_deployment_error
    (w : World) (stdout bytecode output text : string)
    (files' files1 files2 : gmap string string)
    (filePath : string) (rest : list string)
    (factory : ContractFactory) (reason : string) (chain1 chain2 : Chain) :
  child_process_exec "huffc --version" (fs w) = (inr stdout, files') ->
  includes stdout "0.0." = false ->
  List.filter (helpers.matches targetContract) (glob_sync "contracts/**/*.huff" files')
  = filePath :: rest ->
  child_process_exec (helpers.bytecode_command filePath constructorArgs) files'
  = (inr bytecode, files1) ->
  child_process_exec (helpers.interface_command filePath) files1
  = (inr output, files2) ->
  files2 !! helpers.interfaceFilePath filePath = Some text ->
  getContractFactory (helpers.scrape text) bytecode signer (chain w)
  = (inr factory, chain1) ->
  factory_deploy factory chain1 = (inl reason, chain2) ->
  helpers.deploy targetContract signer constructorArgs w
  = (Rejected (Error ("Error deploying " ++ targetContract ++ ": " ++ reason)),
     mkWorld _ files2 chain2
       (log w ++ [EvExec "huffc --version"; EvGlob "contracts/**/*.huff";
                  EvExec (helpers.bytecode_command filePath constructorArgs);
                  EvExec (helpers.interface_command filePath);
                  EvReadFile (helpers.interfaceFilePath filePath);
                  EvGetContractFactory (helpers.scrape text) bytecode;
                  EvFactoryDeploy])).
Proof.
  intros Hexec Hversion Hfirst Hcompile Hinterface Hfile Hfactory Hdeploy.
  apply (deploy_first_match _ _ _ _ _ Hexec Hversion Hfirst).
  unfold helpers.deploy_file, helpers.getContractBytecode,
    helpers.generateContractInterface, helpers.getContractAbi,
    hre_getContractFactory, try_rethrow, deploy_factory,
    bind, exec, throw, ret, readFileSync, emit.
  cbn [Spec.after_scan fs chain log]. rewrite Hcompile.
  cbn [fs chain log]. rewrite Hinterface.
  cbn [fs chain log]. rewrite Hfile.
  cbn [fs chain log]. rewrite Hfactory.
  cbn [fs chain log]. rewrite Hdeploy.
  cbn [fs chain log exn_text]. now rewrite <- !app_assoc.
Qed.

(** X7.  When the version output contains the text [0.0.], [deploy] ends
    with the "TS Huff not supported" HardhatPluginError thrown inside the
    callback of [exec] (uncaught, as for a missing compiler), and the
    version check is its only event. *)
Theorem deploy_legacy_compiler
    (w : World) (stdout : string) (files' : gmap string string) :
  child_process_exec "huffc --version" (fs w) = (inr stdout, files') ->
  includes stdout "0.0." = true ->
  helpers.deploy targetContract signer constructorArgs w
  = (Uncaught
       (HardhatPluginError "huff-deployer"
          "TS Huff not supported. Please install the Rust compiler from https://github.com/huff-language/huff-rs"),
     mkWorld _ files' (chain w) (log w ++ [EvExec "huffc --version"])).
Proof.
  intros Hexec Hversion.
  unfold helpers.deploy, helpers.verifyHuffCompiler, bind, exec.
  rewrite Hexec. cbn. now rewrite Hversion.
Qed.

End Failures.

(** ** The ways a call fails *)

Section Taxonomy.
Context `{Runtime}.



Lemma fails_only_exec (rejections uncaught : exn -> Prop) (command : string) :
  Spec.fails_only rejections uncaught (exec command).
Proof.
  intros w. unfold exec. now destruct (child_process_exec command (fs w)).
Qed.

Section Call.
Variable targetContract : string.
Variable signer : option Signer.
Variable constructorArgs : option (list any).






End Call.


End Taxonomy.

(** ** The events of a call *)

Section Commands.
Context `{Runtime}.

Lemma emits_only_bind {A B : Type} (allowed : Event -> Prop)
    (m : M A) (k : A -> M B) :
  Spec.emits_only allowed m -> (forall a, Spec.emits_only allowed (k a)) ->
  Spec.emits_only allowed (bind m k).
Proof.
  intros Hm Hk w. destruct (Hm w) as (events1 & Hlog1 & Hall1). unfold bind.
  destruct (m w) as [[a|e|e] w1]; cbn in *; [|now exists events1..].
  destruct (Hk a w1) as (events2 & Hlog2 & Hall2).
  exists (events1 ++ events2)%list. split.
  - now rewrite Hlog2, Hlog1, <- app_assoc.
  - apply Forall_app. now split.
Qed.

Lemma emits_only_silent {A : Type} (allowed : Event -> Prop) (m : M A) :
  (forall w, snd (m w) = w) -> Spec.emits_only allowed m.
Proof.
  intros Hsame w. exists []. rewrite Hsame, app_nil_r. now split.
Qed.

Lemma emits_only_one {A : Type} (allowed : Event -> Prop) (m : M A) (event : Event) :
  allowed event ->
  (forall w, log (snd (m w)) = (log w ++ [event])%list) ->
  Spec.emits_only allowed m.
Proof.
  intros Hallowed Hlog w. exists [event]. split; [apply Hlog|].
  now repeat constructor.
Qed.

Lemma emits_only_try_rethrow {A : Type} (allowed : Event -> Prop)
    (m : M A) (h : exn -> exn) :
  Spec.emits_only allowed m -> Spec.emits_only allowed (try_rethrow m h).
Proof.
  intros Hm w. destruct (Hm w) as (events & Hlog & Hall). exists events.
  split; [|assumption]. unfold try_rethrow.
  now destruct (m w) as [[a|e|e] w1].
Qed.

Section Call.
Variable targetContract : string.
Variable signer : option Signer.
Variable constructorArgs : option (list any).

Lemma emits_only_exec (command : string) :
  Spec.deploy_event targetContract constructorArgs (EvExec command) ->
  Spec.emits_only (Spec.deploy_event targetContract constructorArgs)
    (await r <- exec command;
     match r with
     | inl err => throw (Foreign err)
     | inr stdout => ret stdout
     end).
Proof.
  intros Hallowed. apply emits_only_one with (event := EvExec command);
    [assumption|].
  intros w. unfold bind, exec, throw, ret.
  now destruct (child_process_exec command (fs w)) as [[err|stdout] files'].
Qed.

Lemma emits_only_deploy_file (filePath : string) :
  helpers.matches targetContract filePath = true ->
  Spec.emits_only (Spec.deploy_event targetContract constructorArgs)
    (helpers.deploy_file targetContract signer constructorArgs filePath).
Proof.
  intros Hmatch. unfold helpers.deploy_file.
  apply emits_only_bind.
  { apply emits_only_exec. right. exists filePath. split; [assumption | now left]. }
  intros bytecode. apply emits_only_bind.
  { apply emits_only_one with (event := EvExec (helpers.interface_command filePath)).
    - right. exists filePath. split; [assumption | now right].
    - intros w. unfold helpers.generateContractInterface, bind, exec, throw, ret.
      now destruct (child_process_exec _ (fs w)) as [[err|stdout] files']. }
  intros _. apply emits_only_bind.
  { apply emits_only_one
      with (event := EvReadFile (helpers.interfaceFilePath filePath)).
    - now exists filePath.
    - intros w. apply getContractAbi_log. }
  intros abi. apply emits_only_bind.
  { apply emits_only_one with (event := EvGetContractFactory abi bytecode);
      [exact I|].
    intros w. unfold hre_getContractFactory.
    now destruct (getContractFactory abi bytecode signer (chain w)) as [[err|f] c]. }
  intros factory. apply emits_only_try_rethrow.
  apply emits_only_one with (event := EvFactoryDeploy); [exact I|].
  intros w. unfold deploy_factory.
  now destruct (factory_deploy factory (chain w)) as [[err|c] chain'].
Qed.

Lemma emits_only_deploy_loop (huffFiles : list string) (contract : option Contract) :
  Spec.emits_only (Spec.deploy_event targetContract constructorArgs)
    (helpers.deploy_loop targetContract signer constructorArgs huffFiles contract).
Proof.
  revert contract. induction huffFiles as [|filePath rest IH]; intros contract;
    cbn [helpers.deploy_loop]; [now apply emits_only_silent|].
  destruct (helpers.matches targetContract filePath) eqn:Hmatch; [|apply IH].
  apply emits_only_bind; [now apply emits_only_deploy_file | intros c; apply IH].
Qed.

(** X9.  Whatever the outcome, the events of [deploy] are the compiler
    check, the scan, and steps of the sequence of files it matches with the
    request: the only child processes are [huffc --version] and the
    bytecode and interface commands of matching files (the command of
    [generateArtifacts] never runs), the only files read are their interface
    files, and nothing is unlinked. *)
Theorem deploy_runs_compiler_on_matches_only :
  Spec.emits_only (Spec.deploy_event targetContract constructorArgs)
    (helpers.deploy targetContract signer constructorArgs).
Proof.
  unfold helpers.deploy. apply emits_only_bind.
  { apply emits_only_one with (event := EvExec "huffc --version"); [now left|].
    intros w. unfold helpers.verifyHuffCompiler, bind, exec, throw_in_callback, ret.
    destruct (child_process_exec _ (fs w)) as [[err|stdout] files']; [reflexivity|].
    cbn. now destruct (includes stdout "0.0."). }
  intros _. apply emits_only_bind.
  { now apply emits_only_one with (event := EvGlob "contracts/**/*.huff"). }
  intros huffFiles. apply emits_only_bind; [apply emits_only_deploy_loop|].
  intros [contract|]; now apply emits_only_silent.
Qed.

End Call.
End Commands.

(** ** The second pipeline, with cleanup and compiler flags *)

Section SecondPipeline.
Context `{Runtime}.

(** X15.  [clean] never fails.  The files afterwards are the files
    without the path it unlinks, the chain is untouched, and when the path
    did not exist the error is written to the console and swallowed. *)
Theorem clean_best_effort (filePath : string) (w : World) :
  fst (HuffDeployer.clean filePath w) = Fulfilled tt /\
  fs (snd (HuffDeployer.clean filePath w))
  = delete (HuffDeployer.clean_path filePath) (fs w) /\
  chain (snd (HuffDeployer.clean filePath w)) = chain w /\
  log (snd (HuffDeployer.clean filePath w))
  = (log w ++ EvUnlink (HuffDeployer.clean_path filePath)
       :: match fs w !! HuffDeployer.clean_path filePath with
          | Some _ => []
          | None =>
              [EvConsoleError
                 ("Error deleting " ++ HuffDeployer.clean_path filePath ++ ": "
                    ++ enoent "unlink" (HuffDeployer.clean_path filePath))]
          end)%list.
Proof.
  unfold HuffDeployer.clean, unlinkSync, console_error, emit.
  destruct (fs w !! HuffDeployer.clean_path filePath) eqn:Hfile; cbn.
  - repeat split.
  - repeat split; [now rewrite delete_id | now rewrite <- app_assoc].
Qed.

Lemma bytecode_command_no_flags
    (filePath : string) (constructorArgs : option (list any)) :
  HuffDeployer.bytecode_command filePath constructorArgs None
  = helpers.bytecode_command filePath constructorArgs.
Proof. destruct constructorArgs; reflexivity. Qed.

Lemma deploy_file_retaining
    (targetContract : string) (signer : option Signer)
    (constructorArgs : option (list any)) (filePath : string) (w : World) :
  HuffDeployer.deploy_file targetContract signer true constructorArgs None filePath w
  = helpers.deploy_file targetContract signer constructorArgs filePath w.
Proof.
  unfold HuffDeployer.deploy_file, helpers.deploy_file,
    HuffDeployer.getContractBytecode, helpers.getContractBytecode,
    HuffDeployer.generateContractInterface, HuffDeployer.getContractAbi.
  rewrite bytecode_command_no_flags.
  apply bind_ext. intros bytecode w1. apply bind_ext. intros _ w2.
  apply bind_ext. intros abi w3. apply bind_ext. intros factory w4.
  cbn [negb]. unfold bind, ret.
  now destruct (try_rethrow _ _ w4) as [[c|e|e] w5].
Qed.

(** X17.  With [generateInterface] true and no compiler flags, [deploy]
    of HuffDeployer.ts is [deploy] of helpers.ts: same outcome, same files,
    same chain, same events, in every world. *)
Theorem deploy_retaining_agrees
    (targetContract : string) (signer : option Signer)
    (constructorArgs : option (list any)) (w : World) :
  HuffDeployer.deploy targetContract signer true constructorArgs None w
  = helpers.deploy targetContract signer constructorArgs w.
Proof.
  unfold HuffDeployer.deploy, helpers.deploy.
  apply bind_ext. intros _ w1. apply bind_ext. intros huffFiles w2.
  assert (Hloop : forall files contract w0,
    HuffDeployer.deploy_loop targetContract signer true constructorArgs None
      files contract w0
    = helpers.deploy_loop targetContract signer constructorArgs files contract w0).
  { induction files as [|filePath rest IH]; intros contract w0; [reflexivity|].
    cbn [HuffDeployer.deploy_loop helpers.deploy_loop].
    unfold HuffDeployer.matches.
    destruct (helpers.matches targetContract filePath); [|apply IH].
    unfold bind. rewrite deploy_file_retaining.
    destruct (helpers.deploy_file _ _ _ _ w0) as [[c|e|e] w3]; [apply IH | reflexivity..]. }
  unfold bind. rewrite Hloop. reflexivity.
Qed.

Section Call.
Variable targetContract : string.
Variable signer : option Signer.
Variable generateInterface : bool.
Variable constructorArgs : option (list any).
Variable compilerArgs : option (list HuffDeployer.CompilerArg).

Lemma second_deploy_file_fulfilled (filePath : string) (contract : Contract) (w w' : World) :
  HuffDeployer.deploy_file targetContract signer generateInterface constructorArgs
    compilerArgs filePath w = (Fulfilled contract, w') ->
  generateInterface = false ->
  fs w' !! HuffDeployer.clean_path filePath = None.
Proof.
  unfold HuffDeployer.deploy_file. intros Hrun ->.
  apply bind_fulfilled in Hrun as (bytecode & w1 & _ & Hrun).
  apply bind_fulfilled in Hrun as ([] & w2 & _ & Hrun).
  apply bind_fulfilled in Hrun as (abi & w3 & _ & Hrun).
  apply bind_fulfilled in Hrun as (factory & w4 & _ & Hrun).
  apply bind_fulfilled in Hrun as (c & w5 & _ & Hrun).
  apply bind_fulfilled in Hrun as ([] & w6 & Hclean & Hrun).
  injection Hrun as _ <-. cbn [negb] in Hclean.
  destruct (clean_best_effort filePath w5) as (_ & Hfs & _).
  rewrite Hclean in Hfs. cbn in Hfs. rewrite Hfs. apply lookup_delete_eq.
Qed.

Lemma second_deploy_loop_no_match
    (files : list string) (kept : option Contract) (w : World) :
  List.filter (HuffDeployer.matches targetContract) files = [] ->
  HuffDeployer.deploy_loop targetContract signer generateInterface constructorArgs
    compilerArgs files kept w = (Fulfilled kept, w).
Proof.
  induction files as [|filePath rest IH]; intros Hnone; [reflexivity|].
  cbn [HuffDeployer.deploy_loop]. cbn [List.filter] in Hnone.
  destruct (HuffDeployer.matches targetContract filePath); [discriminate|].
  now apply IH.
Qed.

Lemma second_deploy_loop_last_match
    (files earlier : list string) (last : string)
    (kept : option Contract) (contract : Contract) (w w' : World) :
  List.filter (HuffDeployer.matches targetContract) files = (earlier ++ [last])%list ->
  HuffDeployer.deploy_loop targetContract signer generateInterface constructorArgs
    compilerArgs files kept w = (Fulfilled (Some contract), w') ->
  exists w0,
    HuffDeployer.deploy_file targetContract signer generateInterface constructorArgs
      compilerArgs last w0 = (Fulfilled contract, w').
Proof.
  revert earlier kept w.
  induction files as [|filePath rest IH]; intros earlier kept w Hmatching Hrun.
  - now destruct earlier.
  - cbn [HuffDeployer.deploy_loop] in Hrun. cbn [List.filter] in Hmatching.
    destruct (HuffDeployer.matches targetContract filePath) eqn:Hmatch;
      [|now apply (IH earlier kept w)].
    apply bind_fulfilled in Hrun as (c & w1 & Hfile & Hrest).
    destruct earlier as [|first earlier]; cbn [app] in Hmatching;
      injection Hmatching as -> Hmatching.
    + rewrite (second_deploy_loop_no_match _ _ _ Hmatching) in Hrest.
      injection Hrest as -> ->. now exists w.
    + now apply (IH earlier (Some c) w1).
Qed.

End Call.

Lemma fst_bind_ext {A B : Type} (m : M A) (k k' : A -> M B) (w : World) :
  (forall a w1, fst (k a w1) = fst (k' a w1)) ->
  fst (bind m k w) = fst (bind m k' w).
Proof. intros Hk. unfold bind. destruct (m w) as [[a|e|e] w1]; auto. Qed.

(** X20.  For one matching file, the sequence of the second [deploy]
    ends the same way with and without interface retention, with the same
    contract or error and the same chain: the cleanup step cannot fail a
    deployment. *)
Theorem cleanup_keeps_outcome
    (targetContract : string) (signer : option Signer)
    (constructorArgs : option (list any))
    (compilerArgs : option (list HuffDeployer.CompilerArg))
    (filePath : string) (w : World) :
  fst (HuffDeployer.deploy_file targetContract signer false constructorArgs
         compilerArgs filePath w)
  = fst (HuffDeployer.deploy_file targetContract signer true constructorArgs
           compilerArgs filePath w) /\
  chain (snd (HuffDeployer.deploy_file targetContract signer false constructorArgs
                compilerArgs filePath w))
  = chain (snd (HuffDeployer.deploy_file targetContract signer true constructorArgs
                  compilerArgs filePath w)).
Proof.
  unfold HuffDeployer.deploy_file. cbn [negb]. unfold bind.
  destruct (HuffDeployer.getContractBytecode _ _ _ w) as [[bytecode|e|e] w1];
    [|now split..].
  destruct (HuffDeployer.generateContractInterface _ w1) as [[[]|e|e] w2];
    [|now split..].
  destruct (HuffDeployer.getContractAbi _ w2) as [[abi|e|e] w3]; [|now split..].
  destruct (hre_getContractFactory _ _ _ w3) as [[factory|e|e] w4]; [|now split..].
  destruct (try_rethrow _ _ w4) as [[contract|e|e] w5]; [|now split..].
  destruct (clean_best_effort filePath w5) as (Hfst & _ & Hchain & _).
  destruct (HuffDeployer.clean filePath w5) as [r w6]. cbn in Hfst, Hchain.
  subst r. cbn. now split.
Qed.

(** X18.  When the compiler check passes and the scanned files that
    match the requested name are [earlier] followed by [last], in discovery
    order, then after a successful call of the second [deploy] with
    [generateInterface] false the path [clean] computes for [last] does not
    exist; for a source path [dir/name.huff] in which [huff] first occurs in
    the extension this is the interface file [dir/Iname.sol]. *)
Theorem deploy_removes_interface_file
    (targetContract : string) (signer : option Signer)
    (constructorArgs : option (list any))
    (compilerArgs : option (list HuffDeployer.CompilerArg))
    (w w' : World) (contract : Contract)
    (stdout : string) (files' : gmap string string)
    (earlier : list string) (last : string) :
  child_process_exec "huffc --version" (fs w) = (inr stdout, files') ->
  List.filter (HuffDeployer.matches targetContract)
    (glob_sync "contracts/**/*.huff" files')
  = (earlier ++ [last])%list ->
  HuffDeployer.deploy targetContract signer false constructorArgs compilerArgs w
  = (Fulfilled contract, w') ->
  fs w' !! HuffDeployer.clean_path last = None /\
  forall dir name,
    Spec.source_path dir name last -> Spec.huff_only_trailing last ->
    fs w' !! Spec.interface_path dir name = None.
Proof.
  unfold HuffDeployer.deploy. intros Hexec Hmatching Hrun.
  apply bind_fulfilled in Hrun as ([] & w1 & Hverify & Hrun).
  apply verify_fulfilled in Hverify as (stdout' & files'' & Hexec' & _ & ->).
  rewrite Hexec in Hexec'. injection Hexec' as <- <-.
  apply bind_fulfilled in Hrun as (huffFiles & w2 & Hscan & Hrun).
  unfold HuffDeployer.returnHuffFiles, helpers.returnHuffFiles in Hscan.
  cbn [fs] in Hscan. injection Hscan as <- <-.
  apply bind_fulfilled in Hrun as (kept & w3 & Hloop & Hrun).
  destruct kept as [c|]; [|discriminate]. injection Hrun as -> ->.
  destruct (second_deploy_loop_last_match _ _ _ _ _ _ earlier last _ _ _ _
              Hmatching Hloop) as (w0 & Hlast).
  apply second_deploy_file_fulfilled in Hlast; [|reflexivity].
  split; [assumption|].
  intros dir name Hsource Htrail.
  now rewrite <- (clean_path_source _ _ _ Hsource Htrail).
Qed.

(** X19.  With [generateInterface] true the second [deploy], for any
    compiler flags and whatever its outcome, unlinks nothing: it only adds
    events, none of them an unlink, and the files change through child
    processes alone. *)
Theorem deploy_retaining_deletes_nothing
    (targetContract : string) (signer : option Signer)
    (constructorArgs : option (list any))
    (compilerArgs : option (list HuffDeployer.CompilerArg)) :
  Spec.deletes_nothing
    (HuffDeployer.deploy targetContract signer true constructorArgs compilerArgs).
Proof.
  assert (Hexec : forall command,
    Spec.deletes_nothing
      (await r <- exec command;
       match r with
       | inl err => throw (Foreign err)
       | inr stdout => ret stdout
       end)).
  { intros command. apply deletes_nothing_bind; [apply deletes_nothing_exec|].
    intros [err|stdout]; [apply deletes_nothing_throw | apply deletes_nothing_ret]. }
  assert (Hfile : forall filePath,
    Spec.deletes_nothing
      (HuffDeployer.deploy_file targetContract signer true constructorArgs
         compilerArgs filePath)).
  { intros filePath. unfold HuffDeployer.deploy_file.
    apply deletes_nothing_bind; [apply Hexec|]. intros bytecode.
    apply deletes_nothing_bind.
    { apply deletes_nothing_bind; [apply deletes_nothing_exec|].
      intros [err|stdout]; [apply deletes_nothing_throw | apply deletes_nothing_ret]. }
    intros _. apply deletes_nothing_bind.
    { apply deletes_nothing_bind; [apply deletes_nothing_readFileSync|].
      intros text. apply deletes_nothing_ret. }
    intros abi. apply deletes_nothing_bind;
      [apply deletes_nothing_getContractFactory|].
    intros factory. apply deletes_nothing_bind.
    { apply deletes_nothing_try_rethrow, deletes_nothing_deploy_factory. }
    intros contract. apply deletes_nothing_bind; [apply deletes_nothing_ret|].
    intros _. apply deletes_nothing_ret. }
  assert (Hloop : forall huffFiles contract,
    Spec.deletes_nothing
      (HuffDeployer.deploy_loop targetContract signer true constructorArgs
         compilerArgs huffFiles contract)).
  { induction huffFiles as [|filePath rest IH]; intros contract;
      cbn [HuffDeployer.deploy_loop]; [apply deletes_nothing_ret|].
    destruct (HuffDeployer.matches targetContract filePath); [|apply IH].
    apply deletes_nothing_bind; [apply Hfile | intros c; apply IH]. }
  unfold HuffDeployer.deploy.
  apply deletes_nothing_bind.
  { unfold HuffDeployer.verifyHuffCompiler, helpers.verifyHuffCompiler.
    apply deletes_nothing_bind; [apply deletes_nothing_exec|].
    intros [err|stdout]; [apply deletes_nothing_throw_in_callback|].
    destruct (includes stdout "0.0.");
      [apply deletes_nothing_throw_in_callback | apply deletes_nothing_ret]. }
  intros _. apply deletes_nothing_bind; [apply deletes_nothing_returnHuffFiles|].
  intros huffFiles. apply deletes_nothing_bind; [apply Hloop|].
  intros [contract|]; [apply deletes_nothing_ret | apply deletes_nothing_throw].
Qed.

End SecondPipeline.

(** ** What is pushed for a line *)

Section Fragments.

(** X12.  For a line whose first [;] comes after the first [function],
    the string [getContractAbi] pushes starts with the keyword, contains no
    [;], and is followed in the line by that [;]: the line is what precedes
    the keyword, the pushed string, the terminator and the rest. *)
Theorem pushed_terminated_line (line : string) (i j : nat) :
  first_occurrence "function" line i ->
  first_occurrence ";" line j ->
  (i < j)%nat ->
  exists pre post,
    line = pre ++ helpers.pushed line ++ ";" ++ post /\
    String.length pre = i /\
    String.prefix "function" (helpers.pushed line) = true /\
    free_of ";" (helpers.pushed line) = true.
Proof. exact (pushed_span line i j). Qed.

Lemma length_substring_prefix (s : string) (m : nat) :
  (m <= String.length s)%nat -> String.length (String.substring 0 m s) = m.
Proof.
  revert m. induction s as [|c s IH]; intros [|m] Hm; cbn in *; try lia.
  rewrite IH; lia.
Qed.

(** X13.  For a line with the keyword and no [;] at all, the index -1 of
    [indexOf] is taken by [slice] as "one before the end": the pushed
    string is the line from the keyword on without its last code unit. *)
Theorem pushed_unterminated_line (line : string) (i : nat) :
  first_occurrence "function" line i ->
  includes line ";" = false ->
  helpers.pushed line = String.substring i (String.length line - i - 1) line /\
  String.length (helpers.pushed line) = (String.length line - i - 1)%nat.
Proof.
  intros Hi Hnone.
  assert (Hpushed :
    helpers.pushed line = String.substring i (String.length line - i - 1) line).
  { unfold helpers.pushed.
    rewrite (proj2 (indexOf_first_occurrence _ _ _) Hi).
    unfold includes in Hnone. unfold indexOf at 1.
    destruct (find_first ";" line); [discriminate|].
    destruct Hi as [Hi _]. apply occurs_at_bound in Hi. cbn in Hi.
    unfold slice, relative_index.
    destruct (Z.ltb_spec (Z.of_nat i) 0); [lia|].
    destruct (Z.ltb_spec (-1) 0); [|lia].
    f_equal; lia. }
  split; [assumption|]. rewrite Hpushed.
  destruct Hi as [(p & q & -> & <-) _].
  rewrite substring_skip, !length_append.
  replace (String.length p + (String.length "function" + String.length q)
             - String.length p - 1)%nat
    with (String.length "function" + String.length q - 1)%nat by lia.
  rewrite <- length_append. apply length_substring_prefix. lia.
Qed.

End Fragments.

(** ** Paths with huff in them *)

Section PathEdges.

(** The last two steps of [clean] keep what follows the last slash: a
    slash-free ending of the string is an ending of the result. *)
Lemma clean_insertion_suffix (stem ext : string) :
  free_of "/" ext = true ->
  exists q,
    let s := stem ++ ext in
    slice s 0 (Some (lastIndexOf s "/" + 1)) ++ "I"
      ++ slice s (lastIndexOf s "/" + 1) None
    = q ++ ext.
Proof.
  intros Hext. destruct (path_cases "/" stem) as [Hfree | (d & n & -> & Hn)]; cbn zeta.
  - exists ("I" ++ stem).
    rewrite lastIndexOf_free by (now rewrite free_of_append, Hfree, Hext).
    change (-1 + 1) with 0.
    pose proof (slice_prefix "" (stem ++ ext)) as Hhead.
    pose proof (slice_suffix "" (stem ++ ext)) as Htail.
    change (slice (stem ++ ext) 0 (Some 0) = "") in Hhead.
    change (slice (stem ++ ext) 0 None = stem ++ ext) in Htail.
    rewrite Hhead, Htail. now rewrite !append_assoc.
  - exists (d ++ "/I" ++ n).
    replace ((d ++ String "/" n) ++ ext) with (d ++ String "/" (n ++ ext))
      by (now rewrite !append_assoc).
    rewrite lastIndexOf_segment by (now rewrite free_of_append, Hn, Hext).
    replace (d ++ String "/" (n ++ ext)) with ((d ++ "/") ++ n ++ ext)
      by (now rewrite !append_assoc).
    replace (len d + 1) with (len (d ++ "/")) by (rewrite length_append; cbn; lia).
    rewrite slice_prefix, slice_suffix. now rewrite !append_assoc.
Qed.

Lemma different_extensions (a b : string) : a ++ ".huff" <> b ++ ".sol".
Proof.
  intros Heq.
  assert (Heq' : (a ++ ".huf") ++ "f" = (b ++ ".so") ++ "l")
    by (now rewrite !append_assoc).
  apply append_same_length in Heq' as [_ Hlast]; [discriminate|].
  apply (f_equal String.length) in Heq. rewrite !length_append in *. cbn in *. lia.
Qed.

(** X16.  When [huff] occurs in the path before the extension (a
    directory [contracts/huff/], say), [clean] replaces that occurrence: the
    path it unlinks still ends in [.huff], and for a source path whose
    [.huff] is only the extension it is not the interface file
    [getContractAbi] read, which therefore stays. *)
Theorem clean_misses_interface_file (path a b : string) :
  path = a ++ "huff" ++ b ++ ".huff" ->
  first_occurrence "huff" path (String.length a) ->
  (exists q, HuffDeployer.clean_path path = q ++ ".huff") /\
  forall dir name,
    Spec.source_path dir name path -> Spec.extension_only_trailing path ->
    HuffDeployer.interfaceFilePath path = Spec.interface_path dir name /\
    HuffDeployer.clean_path path <> HuffDeployer.interfaceFilePath path.
Proof.
  intros -> Hfirst.
  assert (Hclean : exists q,
    HuffDeployer.clean_path (a ++ "huff" ++ b ++ ".huff") = q ++ ".huff").
  { unfold HuffDeployer.clean_path.
    rewrite (replace_first_occurrence "huff" "sol") by assumption.
    replace (a ++ "sol" ++ b ++ ".huff") with ((a ++ "sol" ++ b) ++ ".huff")
      by (now rewrite !append_assoc).
    apply (clean_insertion_suffix (a ++ "sol" ++ b) ".huff"). reflexivity. }
  split; [assumption|]. intros dir name Hsource Htrail.
  pose proof (interfaceFilePath_source _ _ _ Hsource Htrail) as Hread.
  split; [assumption|]. unfold HuffDeployer.interfaceFilePath.
  rewrite Hread. destruct Hclean as [q ->]. unfold Spec.interface_path.
  replace (dir ++ "/" ++ "I" ++ name ++ ".sol")
    with ((dir ++ "/" ++ "I" ++ name) ++ ".sol") by (now rewrite !append_assoc).
  apply different_extensions.
Qed.

(** X14.  For a source [dir/name.huff] whose path contains [.huff] only
    as the extension, the name [deploy] compares with the request is [name],
    whatever the directory: files of the same name in different directories
    all match. *)
Theorem contractName_file_name (dir name : string) :
  free_of "/" name = true ->
  Spec.extension_only_trailing (dir ++ "/" ++ name ++ ".huff") ->
  helpers.contractName (dir ++ "/" ++ name ++ ".huff") = name.
Proof.
  intros Hname Htrail. rewrite contractName_stem by assumption.
  unfold Spec.stem.
  change (dir ++ "/" ++ name ++ ".huff") with (dir ++ String "/" (name ++ ".huff")).
  rewrite basename_segment by (now rewrite free_of_append, Hname).
  apply strip_extension_append.
Qed.

End PathEdges.

(** ** A whole call *)

Section EndToEnd.
Context `{Runtime}.

(** X1.  A call whose every step succeeds on its one matching file
    returns the contract ethers deployed.  The bytecode handed to
    [getContractFactory] is the standard output of the compiler as it is,
    the ABI is what [getContractAbi] scraped from the interface file, and
    the call adds these seven events in this order. *)
Theorem deploy_success
    (targetContract : string) (signer : option Signer)
    (constructorArgs : option (list any))
    (w : World) (stdout bytecode output text : string)
    (files' files1 files2 : gmap string string)
    (filePath : string)
    (factory : ContractFactory) (contract : Contract) (chain1 chain2 : Chain) :
  child_process_exec "huffc --version" (fs w) = (inr stdout, files') ->
  includes stdout "0.0." = false ->
  List.filter (helpers.matches targetContract) (glob_sync "contracts/**/*.huff" files')
  = [filePath] ->
  child_process_exec (helpers.bytecode_command filePath constructorArgs) files'
  = (inr bytecode, files1) ->
  child_process_exec (helpers.interface_command filePath) files1
  = (inr output, files2) ->
  files2 !! helpers.interfaceFilePath filePath = Some text ->
  getContractFactory (helpers.scrape text) bytecode signer (chain w)
  = (inr factory, chain1) ->
  factory_deploy factory chain1 = (inr contract, chain2) ->
  helpers.deploy targetContract signer constructorArgs w
  = (Fulfilled contract,
     mkWorld _ files2 chain2
       (log w ++ [EvExec "huffc --version"; EvGlob "contracts/**/*.huff";
                  EvExec (helpers.bytecode_command filePath constructorArgs);
                  EvExec (helpers.interface_command filePath);
                  EvReadFile (helpers.interfaceFilePath filePath);
                  EvGetContractFactory (helpers.scrape text) bytecode;
                  EvFactoryDeploy])).
Proof.
  intros Hexec Hversion Hsingle Hcompile Hinterface Hfile Hfactory Hdeploy.
  rewrite (deploy_each_matching _ _ _ _ _ _ Hexec Hversion), Hsingle.
  cbn [Spec.each_in_order].
  unfold helpers.deploy_file, helpers.getContractBytecode,
    helpers.generateContractInterface, helpers.getContractAbi,
    hre_getContractFactory, try_rethrow, deploy_factory,
    bind, exec, throw, ret, readFileSync, emit.
  cbn [Spec.after_scan fs chain log]. rewrite Hcompile.
  cbn [fs chain log]. rewrite Hinterface.
  cbn [fs chain log]. rewrite Hfile.
  cbn [fs chain log]. rewrite Hfactory.
  cbn [fs chain log]. rewrite Hdeploy.
  cbn [fs chain log]. now rewrite <- !app_assoc.
Qed.

Lemma files_after_keeps (path : string) (events : list Event)
    (files : gmap string string) :
  (forall command files0,
     is_Some (files0 !! path) ->
     is_Some (snd (child_process_exec command files0) !! path)) ->
  is_Some (files !! path) ->
  is_Some (Spec.files_after events files !! path).
Proof.
  intros Hkeeps. revert files.
  induction events as [|event events IH]; intros files Hfile; [assumption|].
  cbn [Spec.files_after fold_left]. apply IH.
  destruct event; auto.
Qed.

(** X10.  A file that exists before a call of the method
    [HuffDeployer.deploy], and that no run of the compiler removes, exists
    after the call, whatever its outcome. *)
Theorem method_deploy_keeps_files
    (targetContract : string) (constructorArgs : option (list any))
    (signer : option Signer) (w : World) (path : string) :
  (forall command files0,
     is_Some (files0 !! path) ->
     is_Some (snd (child_process_exec command files0) !! path)) ->
  is_Some (fs w !! path) ->
  is_Some
    (fs (snd (HuffDeployer.method_deploy targetContract constructorArgs signer w))
       !! path).
Proof.
  intros Hkeeps Hfile.
  destruct (HuffDeployer.method_deploy targetContract constructorArgs signer w)
    as [r w'] eqn:Hrun.
  destruct (deletes_nothing_method_deploy _ _ _ _ _ _ Hrun) as (events & _ & _ & Hfs).
  cbn [snd]. rewrite Hfs. now apply files_after_keeps.
Qed.

End EndToEnd.

Section Composition.

(** X11.  The loop of [getContractAbi] works line by line: the ABI of two
    texts joined by a line feed is the ABI of the first followed by the ABI
    of the second. *)
Theorem scrape_concatenation (above below : string) :
  helpers.scrape (above ++ String LF below)
  = (helpers.scrape above ++ helpers.scrape below)%list.
Proof.
  rewrite !scrape_lines. unfold Spec.function_lines.
  now rewrite split_append, List.filter_app, map_app.
Qed.

End Composition.

(* ===================================================================== *)
(** * The further properties on concrete inputs *)
(* ===================================================================== *)

Lemma deploy_compile_error_witness :
  let sh := Demo.shell_failing "huffc contracts/Token.huff --bytecode" in
  let found := ["contracts/a.huff"; "contracts/Token.huff"; "contracts/sub/token.huff"] in
  let R := Demo.custom sh None None (inr ["0xf39f"]) found in
  let w := Demo.custom_world sh None None (inr ["0xf39f"]) found ∅ in
  @helpers.deploy R "token" None None w
  = (Rejected (Foreign "Error: Command failed: huffc contracts/Token.huff --bytecode"),
     @mkWorld R ∅ O
       [EvExec "huffc --version"; EvGlob "contracts/**/*.huff";
        EvExec "huffc contracts/Token.huff --bytecode"]).
Proof.
  intros sh found R w.
  exact (@deploy_compile_error R "token" None None w "huffc 0.3.2" ∅ ∅
           "contracts/Token.huff" ["contracts/sub/token.huff"]
           "Error: Command failed: huffc contracts/Token.huff --bytecode"
           eq_refl eq_refl eq_refl eq_refl).
Defined.

Lemma deploy_interface_error_witness :
  let sh := Demo.shell_failing "huffc contracts/Token.huff --interface" in
  let found := ["contracts/Token.huff"] in
  let R := Demo.custom sh None None (inr ["0xf39f"]) found in
  let w := Demo.custom_world sh None None (inr ["0xf39f"]) found ∅ in
  @helpers.deploy R "token" None None w
  = (Rejected (Foreign "Error: Command failed: huffc contracts/Token.huff --interface"),
     @mkWorld R ∅ O
       [EvExec "huffc --version"; EvGlob "contracts/**/*.huff";
        EvExec "huffc contracts/Token.huff --bytecode";
        EvExec "huffc contracts/Token.huff --interface"]).
Proof.
  intros sh found R w.
  exact (@deploy_interface_error R "token" None None w "huffc 0.3.2"
           "0x60008060093d393df3" ∅ ∅ ∅
           "contracts/Token.huff" []
           "Error: Command failed: huffc contracts/Token.huff --interface"
           eq_refl eq_refl eq_refl eq_refl eq_refl).
Defined.

Lemma deploy_interface_file_missing_witness :
  let found := ["contracts/Token.huff"] in
  let R := Demo.custom Demo.shell_writing_nothing None None (inr ["0xf39f"]) found in
  let w := Demo.custom_world Demo.shell_writing_nothing None None
             (inr ["0xf39f"]) found ∅ in
  @helpers.deploy R "token" None None w
  = (Rejected
       (Foreign "Error: ENOENT: no such file or directory, open 'contracts/IToken.sol'"),
     @mkWorld R ∅ O
       [EvExec "huffc --version"; EvGlob "contracts/**/*.huff";
        EvExec "huffc contracts/Token.huff --bytecode";
        EvExec "huffc contracts/Token.huff --interface";
        EvReadFile "contracts/IToken.sol"]).
Proof.
  intros found R w.
  exact (@deploy_interface_file_missing R "token" None None w "huffc 0.3.2"
           "0x60008060093d393df3" "0x60008060093d393df3" ∅ ∅ ∅
           "contracts/Token.huff" []
           eq_refl eq_refl eq_refl eq_refl eq_refl eq_refl).
Defined.

Lemma deploy_factory_error_witness :
  let found := ["contracts/Token.huff"] in
  let R := Demo.custom (Demo.shell true) (Some "Error: invalid fragment") None
             (inr ["0xf39f"]) found in
  let w := Demo.custom_world (Demo.shell true) (Some "Error: invalid fragment") None
             (inr ["0xf39f"]) found ∅ in
  fst (@helpers.deploy R "token" None None w)
  = Rejected (Foreign "Error: invalid fragment").
Proof.
  intros found R w.
  exact (f_equal fst
    (@deploy_factory_error R "token" None None w "huffc 0.3.2"
       "0x60008060093d393df3" "" Demo.interface_text ∅ ∅
       (<["contracts/IToken.sol" := Demo.interface_text]> ∅)
       "contracts/Token.huff" [] "Error: invalid fragment" O
       eq_refl eq_refl eq_refl eq_refl eq_refl eq_refl eq_refl)).
Defined.

Lemma deploy_deployment_error_witness :
  let found := ["contracts/Token.huff"] in
  let R := Demo.custom (Demo.shell true) None (Some "Error: insufficient funds")
             (inr ["0xf39f"]) found in
  let w := Demo.custom_world (Demo.shell true) None (Some "Error: insufficient funds")
             (inr ["0xf39f"]) found ∅ in
  fst (@helpers.deploy R "token" None None w)
  = Rejected (Error "Error deploying token: Error: insufficient funds").
Proof.
  intros found R w.
  exact (f_equal fst
    (@deploy_deployment_error R "token" None None w "huffc 0.3.2"
       "0x60008060093d393df3" "" Demo.interface_text ∅ ∅
       (<["contracts/IToken.sol" := Demo.interface_text]> ∅)
       "contracts/Token.huff" [] "0x60008060093d393df3"
       "Error: insufficient funds" O O
       eq_refl eq_refl eq_refl eq_refl eq_refl eq_refl eq_refl eq_refl)).
Defined.

Lemma deploy_legacy_compiler_witness :
  let sh := Demo.shell_reporting "0.0.25" in
  let found := ["contracts/Token.huff"] in
  let R := Demo.custom sh None None (inr ["0xf39f"]) found in
  let w := Demo.custom_world sh None None (inr ["0xf39f"]) found ∅ in
  @helpers.deploy R "token" None None w
  = (Uncaught
       (HardhatPluginError "huff-deployer"
          "TS Huff not supported. Please install the Rust compiler from https://github.com/huff-language/huff-rs"),
     @mkWorld R ∅ O [EvExec "huffc --version"]).
Proof.
  intros sh found R w.
  exact (@deploy_legacy_compiler R "token" None None w "0.0.25" ∅ eq_refl eq_refl).
Defined.

(** The test for the legacy compiler is a search for the text 0.0. in the
    version output, so it also fires on a version such as 10.0.1. *)
Lemma deploy_legacy_compiler_later_version :
  let sh := Demo.shell_reporting "huffc 10.0.1" in
  let found := ["contracts/Token.huff"] in
  let R := Demo.custom sh None None (inr ["0xf39f"]) found in
  let w := Demo.custom_world sh None None (inr ["0xf39f"]) found ∅ in
  fst (@helpers.deploy R "token" None None w)
  = Uncaught
      (HardhatPluginError "huff-deployer"
         "TS Huff not supported. Please install the Rust compiler from https://github.com/huff-language/huff-rs").
Proof. reflexivity. Qed.

Lemma deploy_success_witness :
  let found := ["contracts/a.huff"; "contracts/Token.huff"] in
  let R := Demo.runtime true found in
  let w := @mkWorld R ∅ O [] in
  @helpers.deploy R "token" None None w
  = (Fulfilled (O, "0x60008060093d393df3"),
     @mkWorld R (<["contracts/IToken.sol" := Demo.interface_text]> ∅) 1%nat
       [EvExec "huffc --version"; EvGlob "contracts/**/*.huff";
        EvExec "huffc contracts/Token.huff --bytecode";
        EvExec "huffc contracts/Token.huff --interface";
        EvReadFile "contracts/IToken.sol";
        EvGetContractFactory
          ["function balanceOf(address) external view returns (uint256)";
           "function mint(address, uint256) external"]
          "0x60008060093d393df3";
        EvFactoryDeploy]).
Proof.
  intros found R w.
  exact (@deploy_success R "token" None None w "huffc 0.3.2"
           "0x60008060093d393df3" "" Demo.interface_text ∅ ∅
           (<["contracts/IToken.sol" := Demo.interface_text]> ∅)
           "contracts/Token.huff" "0x60008060093d393df3"
           (O, "0x60008060093d393df3") O 1%nat
           eq_refl eq_refl eq_refl eq_refl eq_refl eq_refl eq_refl eq_refl).
Defined.

Lemma deploy_removes_interface_file_witness :
  let found := ["contracts/a.huff"; "contracts/Token.huff"] in
  let R := Demo.runtime true found in
  let w := Demo.world true found in
  let w' := snd (@HuffDeployer.deploy R "token" None false None None w) in
  @child_process_exec R "huffc --version" (fs w) = (inr "huffc 0.3.2", fs w) /\
  List.filter (@HuffDeployer.matches R "token")
    (@glob_sync R "contracts/**/*.huff" (fs w))
  = ([] ++ ["contracts/Token.huff"])%list /\
  @HuffDeployer.deploy R "token" None false None None w
  = (Fulfilled (O, "0x60008060093d393df3"), w') /\
  fs w' !! HuffDeployer.clean_path "contracts/Token.huff" = None /\
  forall dir name,
    Spec.source_path dir name "contracts/Token.huff" ->
    Spec.huff_only_trailing "contracts/Token.huff" ->
    fs w' !! Spec.interface_path dir name = None.
Proof.
  intros found R w w'.
  assert (Hfst : fst (@HuffDeployer.deploy R "token" None false None None w)
                 = Fulfilled (O, "0x60008060093d393df3"))
    by (vm_compute; reflexivity).
  pose proof (@run_fulfilled R _ (@HuffDeployer.deploy R "token" None false None None)
                w (O, "0x60008060093d393df3") Hfst) as Hrun.
  split; [reflexivity|]. split; [reflexivity|]. split; [exact Hrun|].
  exact (@deploy_removes_interface_file R "token" None None None w w'
           (O, "0x60008060093d393df3") "huffc 0.3.2" (fs w) []
           "contracts/Token.huff" eq_refl eq_refl Hrun).
Defined.

(** In that world the interface file was written, read and removed. *)
Lemma deploy_removes_interface_file_example :
  let found := ["contracts/a.huff"; "contracts/Token.huff"] in
  let R := Demo.runtime true found in
  let w' := snd (@HuffDeployer.deploy R "token" None false None None
                   (Demo.world true found)) in
  fs w' !! "contracts/IToken.sol" = None /\
  fs w' !! "contracts/Token.huff" <> None /\
  log w'
  = [EvExec "huffc --version"; EvGlob "contracts/**/*.huff";
     EvExec "huffc contracts/Token.huff --bytecode";
     EvExec "huffc contracts/Token.huff --interface";
     EvReadFile "contracts/IToken.sol";
     EvGetContractFactory
       ["function balanceOf(address) external view returns (uint256)";
        "function mint(address, uint256) external"]
       "0x60008060093d393df3";
     EvFactoryDeploy; EvUnlink "contracts/IToken.sol"].
Proof. repeat split; vm_compute; (reflexivity || discriminate). Qed.

Lemma pushed_terminated_line_witness :
  let line := "  function mint(address, uint256) external; // mints" in
  first_occurrence "function" line 2 /\
  first_occurrence ";" line 42 /\
  exists pre post,
    line = pre ++ helpers.pushed line ++ ";" ++ post /\
    String.length pre = 2%nat /\
    String.prefix "function" (helpers.pushed line) = true /\
    free_of ";" (helpers.pushed line) = true.
Proof.
  intros line.
  assert (Hi : first_occurrence "function" line 2)
    by (now apply find_first_sound).
  assert (Hj : first_occurrence ";" line 42)
    by (now apply find_first_sound).
  split; [exact Hi|]. split; [exact Hj|].
  exact (pushed_terminated_line line 2 42 Hi Hj ltac:(lia)).
Defined.

Lemma pushed_unterminated_line_witness :
  let line := "function f() external" in
  first_occurrence "function" line 0 /\
  includes line ";" = false /\
  helpers.pushed line = String.substring 0 (String.length line - 0 - 1) line /\
  String.length (helpers.pushed line) = (String.length line - 0 - 1)%nat.
Proof.
  intros line.
  assert (Hi : first_occurrence "function" line 0)
    by (now apply find_first_sound).
  split; [exact Hi|]. split; [reflexivity|].
  exact (pushed_unterminated_line line 0 Hi eq_refl).
Defined.

Lemma clean_misses_interface_file_witness :
  let path := "contracts/huff/Token.huff" in
  path = "contracts/" ++ "huff" ++ "/Token" ++ ".huff" /\
  first_occurrence "huff" path (String.length "contracts/") /\
  (exists q, HuffDeployer.clean_path path = q ++ ".huff") /\
  forall dir name,
    Spec.source_path dir name path -> Spec.extension_only_trailing path ->
    HuffDeployer.interfaceFilePath path = Spec.interface_path dir name /\
    HuffDeployer.clean_path path <> HuffDeployer.interfaceFilePath path.
Proof.
  intros path.
  assert (Hfirst : first_occurrence "huff" path (String.length "contracts/"))
    by (now apply find_first_sound).
  split; [reflexivity|]. split; [exact Hfirst|].
  exact (clean_misses_interface_file path "contracts/" "/Token" eq_refl Hfirst).
Defined.

(** The two paths for that source. *)
Lemma clean_misses_interface_file_example :
  HuffDeployer.clean_path "contracts/huff/Token.huff" = "contracts/sol/IToken.huff" /\
  HuffDeployer.interfaceFilePath "contracts/huff/Token.huff"
  = "contracts/huff/IToken.sol".
Proof. split; reflexivity. Qed.

Lemma contractName_file_name_witness :
  free_of "/" "Token" = true /\
  Spec.extension_only_trailing ("contracts/tokens/erc20" ++ "/" ++ "Token" ++ ".huff") /\
  helpers.contractName ("contracts/tokens/erc20" ++ "/" ++ "Token" ++ ".huff") = "Token".
Proof.
  assert (Htrail : Spec.extension_only_trailing
                     ("contracts/tokens/erc20" ++ "/" ++ "Token" ++ ".huff"))
    by (now apply (extension_only_trailing_scan "contracts/tokens/erc20/Token")).
  split; [reflexivity|]. split; [exact Htrail|].
  exact (contractName_file_name "contracts/tokens/erc20" "Token" eq_refl Htrail).
Defined.

Lemma demo_shell_keeps_files
    (path command : string) (files : gmap string string) :
  is_Some (files !! path) ->
  is_Some (snd (Demo.shell true command files) !! path).
Proof.
  intros Hfile. unfold Demo.shell. cbn [negb].
  destruct (String.eqb command "huffc --version"); [assumption|].
  destruct (String.eqb (slice command (-12) None) " --interface"); [|assumption].
  cbn [snd]. rewrite lookup_insert. now case_decide.
Qed.

Lemma method_deploy_keeps_files_witness :
  let found := ["contracts/a.huff"; "contracts/Token.huff"] in
  let R := Demo.runtime true found in
  let w := Demo.world true found in
  is_Some (fs w !! "contracts/Token.huff") /\
  is_Some (fs (snd (@HuffDeployer.method_deploy R "token" None None w))
             !! "contracts/Token.huff").
Proof.
  intros found R w.
  assert (Hfile : is_Some (fs w !! "contracts/Token.huff"))
    by (vm_compute; eauto).
  split; [exact Hfile|].
  exact (@method_deploy_keeps_files R "token" None None w "contracts/Token.huff"
           (demo_shell_keeps_files "contracts/Token.huff") Hfile).
Defined.
